(** * MapToken: the frame engine (frames.js) and the canvas helpers (app.js)

    A shallow embedding of the JavaScript sources.  A JavaScript Number is an
    IEEE 754 binary64 value, so Numbers are primitive [float]s and every
    arithmetic operator is the correctly rounded binary64 one.  Strings are
    [string]s, arrays are lists, object literals are records. *)

From Stdlib Require Import ZArith QArith Lqa List Sorted Bool Lia String Ascii DecimalString.
From Stdlib Require Import Floats.PrimFloat Floats.FloatOps Floats.SpecFloat Floats.FloatAxioms.
From Stdlib Require Uint63.
Import ListNotations.

#[local] Set Warnings "-inexact-float".

Local Open Scope string_scope.
Local Open Scope float_scope.

(** ** JavaScript Numbers *)

Module JS.

(** The Number nearest to a mathematical integer (ToNumber of an integer
    literal, the result of parseInt). *)
Definition Number_of_Z (z : Z) : float :=
  SF2Prim (binary_normalize prec emax z 0 false).

Definition NaN : float := nan.

Definition Math_PI : float := 0x1.921fb54442d18p+1.

(** Math.max and Math.min of two Numbers: NaN is contagious and +0 is larger
    than -0. *)
Definition Math_max2 (x y : float) : float :=
  if is_nan x then x
  else if is_nan y then y
  else if x <? y then y
  else if y <? x then x
  else if get_sign x then y else x.

Definition Math_min2 (x y : float) : float :=
  if is_nan x then x
  else if is_nan y then y
  else if x <? y then x
  else if y <? x then y
  else if get_sign x then x else y.

Definition Math_max3 (x y z : float) : float := Math_max2 (Math_max2 x y) z.
Definition Math_min3 (x y z : float) : float := Math_min2 (Math_min2 x y) z.

(** Math.round: the integer nearest to [x], a tie going to the one closer to
    +Infinity, that is floor(x + 1/2) computed exactly on the mantissa [m] and
    the exponent [e] of [x = m * 2^e].  NaN, the infinities and the zeros are
    returned as they are; a result that is zero keeps the sign of [x]. *)
Definition Math_round (x : float) : float :=
  match Prim2SF x with
  | S754_finite s m e =>
      if (0 <=? e)%Z then x
      else
        let n := if s then Z.neg m else Z.pos m in
        let z := Z.shiftr (2 * n + Z.shiftl 1 (- e)) (- e + 1) in
        if (z =? 0)%Z then (if s then neg_zero else zero) else Number_of_Z z
  | _ => x
  end.

(** The remainder operator [%] on Numbers: the exact remainder of the
    truncating division, with the sign of the dividend. *)
Definition rem (x y : float) : float :=
  match Prim2SF x, Prim2SF y with
  | S754_nan, _ | _, S754_nan => nan
  | S754_infinity _, _ => nan
  | _, S754_zero _ => nan
  | S754_zero _, _ => x
  | S754_finite _ _ _, S754_infinity _ => x
  | S754_finite sx mx ex, S754_finite _ my ey =>
      let e := Z.min ex ey in
      let r := Z.rem (Z.shiftl (Z.pos mx) (ex - e)) (Z.shiftl (Z.pos my) (ey - e)) in
      let v := Z.ldexp (of_uint63 (Uint63.of_Z r)) e in
      if sx then - v else v
  end.

(** *** Numbers and strings *)

Definition hex_value (c : ascii) : option Z :=
  let n := Z.of_N (N_of_ascii c) in
  if (48 <=? n)%Z && (n <=? 57)%Z then Some (n - 48)%Z
  else if (97 <=? n)%Z && (n <=? 102)%Z then Some (n - 87)%Z
  else if (65 <=? n)%Z && (n <=? 70)%Z then Some (n - 55)%Z
  else None.

(** The white space that parseInt skips, among the characters below 256. *)
Definition is_white_space (c : ascii) : bool :=
  let n := N_of_ascii c in
  ((9 <=? n) && (n <=? 13) || (n =? 32) || (n =? 160))%N.

Fixpoint trim_start (s : string) : string :=
  match s with
  | String c s' => if is_white_space c then trim_start s' else s
  | EmptyString => s
  end.

(** The value of the longest prefix of hexadecimal digits, read after the
    digits [acc] accumulated so far; [None] when there is no digit at all. *)
Fixpoint hex_prefix (acc : option Z) (s : string) : option Z :=
  match s with
  | String c s' =>
      match hex_value c with
      | Some d => hex_prefix (Some (16 * match acc with Some a => a | None => 0 end + d)%Z) s'
      | None => acc
      end
  | EmptyString => acc
  end.

Definition strip_0x (s : string) : string :=
  match s with
  | String "0" (String "x" s') => s'
  | String "0" (String "X" s') => s'
  | _ => s
  end.

(** A leading sign: whether it is a minus, and what follows it. *)
Definition strip_sign (s : string) : bool * string :=
  match s with
  | String "-" s' => (true, s')
  | String "+" s' => (false, s')
  | _ => (false, s)
  end.

(** parseInt(s, 16): white space, a sign and a "0x" are skipped, then the
    longest run of hexadecimal digits is read; NaN when there is none. *)
Definition parseInt16 (s : string) : float :=
  let '(neg, s) := strip_sign (trim_start s) in
  match hex_prefix None (strip_0x s) with
  | None => nan
  | Some n => if neg then - Number_of_Z n else Number_of_Z n
  end.

(** s.slice(from, to) for literal bounds 0 <= from <= to. *)
Definition slice (s : string) (from to : nat) : string :=
  substring from (to - from) s.

Definition hex_digit (d : Z) : ascii :=
  ascii_of_N (Z.to_N (if (d <? 10)%Z then d + 48 else d + 87)%Z).

(** The hexadecimal digits of a positive integer, most significant first. *)
Fixpoint hex_of_pos (fuel : nat) (z : Z) (acc : string) : string :=
  match fuel with
  | O => acc
  | S fuel' =>
      if (z <=? 0)%Z then acc
      else hex_of_pos fuel' (z / 16)%Z (String (hex_digit (z mod 16)%Z) acc)
  end.

Definition hex_of_Z (z : Z) : string :=
  if (z =? 0)%Z then "0" else hex_of_pos (S (Z.to_nat (Z.log2 z))) z "".

(** The digits after the point of [num / 2^sh], for [0 <= num < 2^sh]. *)
Fixpoint hex_fraction (fuel : nat) (num sh : Z) : string :=
  match fuel with
  | O => ""
  | S fuel' =>
      if (num =? 0)%Z then ""
      else
        let n16 := (16 * num)%Z in
        String (hex_digit (Z.shiftr n16 sh))
               (hex_fraction fuel' (Z.land n16 (Z.ones sh)) sh)
  end.

(** x.toString(16).  Every Number has a finite expansion in base 16; a
    Number that is an integer, as every result of Math.round is, prints as
    its digits alone. *)
Definition toString16 (x : float) : string :=
  match Prim2SF x with
  | S754_nan => "NaN"
  | S754_infinity s => if s then "-Infinity" else "Infinity"
  | S754_zero _ => "0"
  | S754_finite s m e =>
      (if s then "-" else "") ++
      (if (0 <=? e)%Z then hex_of_Z (Z.shiftl (Z.pos m) e)
       else
         let frac := Z.land (Z.pos m) (Z.ones (- e)) in
         hex_of_Z (Z.shiftr (Z.pos m) (- e)) ++
         (if (frac =? 0)%Z then "" else "." ++ hex_fraction (Z.to_nat (- e)) frac (- e)))
  end.

Fixpoint repeat_string (n : nat) (fill : string) : string :=
  match n with
  | O => ""
  | S n' => fill ++ repeat_string n' fill
  end.

(** s.padStart(n, c) for a one-character filler. *)
Definition padStart (s : string) (n : nat) (fill : string) : string :=
  repeat_string (n - String.length s) fill ++ s.

End JS.

Import JS.

(** ** frames.js: the tone helper *)

Definition hexToHSL (hex : string) : float * float * float :=
  let r := parseInt16 (slice hex 1 3) / 255 in
  let g := parseInt16 (slice hex 3 5) / 255 in
  let b := parseInt16 (slice hex 5 7) / 255 in
  let max := Math_max3 r g b in
  let min := Math_min3 r g b in
  let l := (max + min) / 2 in
  let '(h, s) :=
    if max =? min then (0, 0)
    else
      let d := max - min in
      let s := if 0.5 <? l then d / (2 - max - min) else d / (max + min) in
      (* no case of the switch matching leaves h undefined, and
         undefined * 360 is NaN *)
      let h :=
        if max =? r then ((g - b) / d + (if g <? b then 6 else 0)) / 6
        else if max =? g then ((b - r) / d + 2) / 6
        else if max =? b then ((r - g) / d + 4) / 6
        else nan in
      (h, s) in
  (Math_round (h * 360), Math_round (s * 100), Math_round (l * 100)).

Definition hslToHex (h s l : float) : string :=
  let s := s / 100 in
  let l := l / 100 in
  let a := s * Math_min2 l (1 - l) in
  let f := fun n : float =>
    let k := rem (n + h / 30) 12 in
    let color := l - a * Math_max2 (Math_min3 (k - 3) (9 - k) 1) (-1) in
    padStart (toString16 (Math_round (255 * color))) 2 "0" in
  "#" ++ f 0 ++ f 8 ++ f 4.

Record Tones : Type := mkTones
  { base : string; light : string; dark : string; vdark : string; shine : string }.

Definition toneVariants (hex : string) : Tones :=
  let '(h, s, l) := hexToHSL hex in
  {| base  := hslToHex h s l;
     light := hslToHex h (Math_max2 (s - 5) 0) (Math_min2 (l + 22) 92);
     dark  := hslToHex h (Math_min2 (s + 5) 100) (Math_max2 (l - 22) 8);
     vdark := hslToHex h (Math_min2 (s + 10) 100) (Math_max2 (l - 38) 4);
     shine := hslToHex h (Math_max2 (s - 15) 0) (Math_min2 (l + 38) 96) |}.

(** The HSL triples toneVariants hands to hslToHex, tone by tone: the
    lightness a tone is built with is the third component. *)
Record ToneArgs : Type := mkToneArgs
  { base_hsl : float * float * float;
    light_hsl : float * float * float;
    dark_hsl : float * float * float;
    vdark_hsl : float * float * float;
    shine_hsl : float * float * float }.

Definition toneArgsOf (hsl : float * float * float) : ToneArgs :=
  let '(h, s, l) := hsl in
  {| base_hsl  := (h, s, l);
     light_hsl := (h, Math_max2 (s - 5) 0, Math_min2 (l + 22) 92);
     dark_hsl  := (h, Math_min2 (s + 5) 100, Math_max2 (l - 22) 8);
     vdark_hsl := (h, Math_min2 (s + 10) 100, Math_max2 (l - 38) 4);
     shine_hsl := (h, Math_max2 (s - 15) 0, Math_min2 (l + 38) 96) |}.

Definition toneArgs (hex : string) : ToneArgs := toneArgsOf (hexToHSL hex).

Definition lightness (hsl : float * float * float) : float := snd hsl.

Definition hex_of_hsl (hsl : float * float * float) : string :=
  let '(h, s, l) := hsl in hslToHex h s l.

(** ** frames.js: the text of an SVG document *)

Definition dquote : string := String (ascii_of_nat 34) "".
Definition newline : string := String (ascii_of_nat 10) "".

Fixpoint spaces (n : nat) : string :=
  match n with
  | O => ""
  | S n' => " " ++ spaces n'
  end.

(** A line break followed by [n] blanks, as the template literals have it
    between two elements. *)
Definition br (n : nat) : string := newline ++ spaces n.

(** A piece of a template literal: a tag with its attributes and the
    characters that close it (">", "/>" or " />"), or literal text. *)
Inductive node : Type :=
| Tag (name : string) (attrs : list (string * string)) (close : string)
| Text (s : string).

Definition print_attr (a : string * string) : string :=
  " " ++ fst a ++ "=" ++ dquote ++ snd a ++ dquote.

Definition print_node (n : node) : string :=
  match n with
  | Tag name attrs close => "<" ++ name ++ String.concat "" (map print_attr attrs) ++ close
  | Text s => s
  end.

(** The text of a sequence of pieces, one after the other. *)
Definition print (ns : list node) : string :=
  fold_right (fun n rest => print_node n ++ rest) "" ns.

(** The shapes of the mask, with the paint that fills them. *)
Inductive shape : Type :=
| Rect (width height : Z)
| Disc (cx cy r : Z).

Record painted : Type := mkPainted { outline : shape; paint : string }.

Definition decimal (z : Z) : string :=
  DecimalString.NilZero.string_of_int (Z.to_int z).

Definition shape_node (p : painted) : node :=
  match outline p with
  | Rect w h =>
      Tag "rect" [("width", decimal w); ("height", decimal h); ("fill", paint p)] "/>"
  | Disc cx cy r =>
      Tag "circle" [("cx", decimal cx); ("cy", decimal cy); ("r", decimal r); ("fill", paint p)] "/>"
  end.

(** The mask "fm": the whole canvas in white, then the inner disc in black. *)
Definition mask_fm : list painted :=
  [ mkPainted (Rect 512 512) "white"; mkPainted (Disc 256 256 232) "black" ].

Definition svg_open : list node :=
  [ Tag "svg" [("xmlns", "http://www.w3.org/2000/svg");
               ("xmlns:xlink", "http://www.w3.org/1999/xlink");
               ("width", "512"); ("height", "512"); ("viewBox", "0 0 512 512")] ">";
    Text (br 4); Tag "defs" [] ">";
    Text (br 6); Tag "mask" [("id", "fm")] ">" ]
  ++ flat_map (fun p => [Text (br 8); shape_node p]) mask_fm
  ++ [ Text (br 6); Text "</mask>";
       Text (br 4); Text "</defs>";
       Text (br 4); Tag "g" [("mask", "url(#fm)")] ">" ].

Definition svg_close : list node := [ Text "</g>"; Text (br 2); Text "</svg>" ].

Definition svgWrap (content : string) : string :=
  print svg_open ++ content ++ print svg_close.

(** ** frames.js: the six frames

    What the engine supplies and the source only calls: the trigonometric
    functions, which ECMAScript leaves implementation-approximated, and the
    two conversions of a Number to decimal text. *)
Record Host : Type := mkHost
  { Math_cos : float -> float;
    Math_sin : float -> float;
    toFixed : float -> nat -> string;        (* x.toFixed(digits) *)
    Number_toString : float -> string }.     (* a Number inside a template literal *)

Section Frames.

Context (host : Host).

Let cos := Math_cos host.
Let sin := Math_sin host.
Let fixed1 (x : float) : string := toFixed host x 1.

(** A [for (let i = 0; i < n; i++) acc += body(i)] loop, at iteration [i]
    with [n] iterations left. *)
Fixpoint for_loop (n : nat) (i : nat) (body : nat -> list node) (acc : list node) : list node :=
  match n with
  | O => acc
  | S n' => for_loop n' (S i) body (acc ++ body i)
  end.

(** The loop counter, a Number. *)
Definition Number_of_nat (i : nat) : float := Number_of_Z (Z.of_nat i).

Definition circle256 (r fill : string) : node :=
  Tag "circle" [("cx", "256"); ("cy", "256"); ("r", r); ("fill", fill)] " />".

(** The [d] attribute of a one-curve path: "Mx0,y0 Qxc,yc x1,y1". *)
Definition quad_path (p0 pc p1 : float * float) : string :=
  "M" ++ fixed1 (fst p0) ++ "," ++ fixed1 (snd p0) ++
  " Q" ++ fixed1 (fst pc) ++ "," ++ fixed1 (snd pc) ++
  " " ++ fixed1 (fst p1) ++ "," ++ fixed1 (snd p1).

(** *** Frame 1: Simple Ring *)

Definition simpleRing (t : Tones) : list node :=
  [ Text (br 4); circle256 "248" (dark t);
    Text (br 4); circle256 "240" (base t);
    Text (br 4); circle256 "234" (dark t);
    Text (br 2) ].

Definition frameSimpleRing (color : string) : string :=
  let t := toneVariants color in
  svgWrap (print (simpleRing t)).

(** *** Frame 2: Double Ring *)

Definition doubleRing (t : Tones) : list node :=
  [ Text (br 4); Text "<!-- outer ring -->";
    Text (br 4); circle256 "252" (vdark t);
    Text (br 4); circle256 "248" (base t);
    Text (br 4); circle256 "243" (vdark t);
    Text (br 4); Text "<!-- gap -->";
    Text (br 4); circle256 "240" (dark t);
    Text (br 4); Text "<!-- inner ring -->";
    Text (br 4); circle256 "238" (vdark t);
    Text (br 4); circle256 "235" (light t);
    Text (br 4); circle256 "232" (vdark t);
    Text (br 2) ].

Definition frameDoubleRing (color : string) : string :=
  let t := toneVariants color in
  svgWrap (print (doubleRing t)).

(** *** Frame 3: Rope Twist *)

(** What one iteration of the loop computes. *)
Record strand : Type := mkStrand
  { a0 : float; a1 : float; am : float;
    p_start : float * float; p_ctrl : float * float; p_end : float * float;
    stroke : string }.

Definition rope_segments : nat := 36.
Definition rope_step : float := (2 * Math_PI) / Number_of_nat rope_segments.

Definition ropeStrand (t : Tones) (i : nat) : strand :=
  let cx := 256 in
  let cy := 256 in
  let r := 242 in
  let a0 := Number_of_nat i * rope_step - Math_PI / 2 in
  let a1 := a0 + rope_step * 0.55 in
  let x0 := cx + r * cos a0 in
  let y0 := cy + r * sin a0 in
  let x1 := cx + r * cos a1 in
  let y1 := cy + r * sin a1 in
  let fill := if Nat.even i then base t else dark t in
  let ri := 234 in
  let am := a0 + rope_step * 0.275 + (if Nat.even i then 0.08 else -0.08) in
  let xm := cx + ri * cos am in
  let ym := cy + ri * sin am in
  mkStrand a0 a1 am (x0, y0) (xm, ym) (x1, y1) fill.

Definition strand_node (s : strand) : node :=
  Tag "path" [("d", quad_path (p_start s) (p_ctrl s) (p_end s));
              ("stroke", stroke s); ("stroke-width", "9"); ("fill", "none");
              ("stroke-linecap", "round")] "/>".

Definition ropeStrands (t : Tones) : list node :=
  for_loop rope_segments 0 (fun i => [strand_node (ropeStrand t i)]) [].

Definition ropeTwist (t : Tones) : list node :=
  [ Text (br 4); circle256 "252" (vdark t);
    Text (br 4); circle256 "248" (dark t);
    Text (br 4) ] ++ ropeStrands t ++
  [ Text (br 4); circle256 "233" (vdark t);
    Text (br 2) ].

Definition frameRopeTwist (color : string) : string :=
  let t := toneVariants color in
  svgWrap (print (ropeTwist t)).

(** *** Frame 4: Ornate Fantasy *)

Definition petal (t : Tones) (cx cy angle size : float) : list node :=
  let a := angle * Math_PI / 180 in
  let r1 := 238 in
  let r2 := 248 in
  let tip_x := cx + r2 * cos a in
  let tip_y := cy + r2 * sin a in
  let lx := cx + r1 * cos (a - 0.18) in
  let ly := cy + r1 * sin (a - 0.18) in
  let rx := cx + r1 * cos (a + 0.18) in
  let ry := cy + r1 * sin (a + 0.18) in
  [ Tag "path" [("d", quad_path (lx, ly) (tip_x, tip_y) (rx, ry));
                ("stroke", shine t); ("stroke-width", "2.5"); ("fill", "none")] "/>";
    Text (br 12);
    Tag "circle" [("cx", fixed1 tip_x); ("cy", fixed1 tip_y);
                  ("r", fixed1 (size * 0.35)); ("fill", light t)] "/>" ].

(** The angle, in degrees, of the [i]-th of the eight spokes: [i * 45 - 90]. *)
Definition spoke_degrees (i : nat) : float := Number_of_nat i * 45 - 90.

Definition ornatePetals (t : Tones) : list node :=
  for_loop 8 0 (fun i => petal t 256 256 (spoke_degrees i) 6) [].

(** The two ends of the [i]-th vine, in degrees. *)
Definition vine_start_degrees (i : nat) : float := Number_of_nat i * 45 - 90 + 22.
Definition vine_end_degrees (i : nat) : float := Number_of_nat i * 45 - 90 + 44.

Definition vine (t : Tones) (i : nat) : list node :=
  let a0 := vine_start_degrees i * Math_PI / 180 in
  let a1 := vine_end_degrees i * Math_PI / 180 in
  let rv := 241 in
  let x0 := 256 + rv * cos a0 in
  let y0 := 256 + rv * sin a0 in
  let x1 := 256 + rv * cos a1 in
  let y1 := 256 + rv * sin a1 in
  let xc := 256 + (rv + 4) * cos ((a0 + a1) / 2) in
  let yc := 256 + (rv + 4) * sin ((a0 + a1) / 2) in
  [ Tag "path" [("d", quad_path (x0, y0) (xc, yc) (x1, y1));
                ("stroke", base t); ("stroke-width", "2"); ("fill", "none")] "/>" ].

Definition ornateVines (t : Tones) : list node := for_loop 8 0 (vine t) [].

Definition ornateFantasy (t : Tones) : list node :=
  [ Text (br 4); circle256 "252" (vdark t);
    Text (br 4); circle256 "248" (dark t);
    Text (br 4); circle256 "244" (base t);
    Text (br 4); circle256 "237" (dark t);
    Text (br 4) ] ++ ornateVines t ++
  [ Text (br 4) ] ++ ornatePetals t ++
  [ Text (br 4); circle256 "233" (vdark t);
    Text (br 2) ].

Definition frameOrnateFantasy (color : string) : string :=
  let t := toneVariants color in
  svgWrap (print (ornateFantasy t)).

(** *** Frame 5: Riveted Metal *)

(** The angle of the [i]-th of the 24 rivets. *)
Definition rivet_angle (i : nat) : float :=
  let n := 24 in
  (Number_of_nat i / n) * 2 * Math_PI - Math_PI / 2.

Definition rivet (t : Tones) (i : nat) : list node :=
  let a := rivet_angle i in
  let r := 242 in
  let x := fixed1 (256 + r * cos a) in
  let y := fixed1 (256 + r * sin a) in
  [ Tag "circle" [("cx", x); ("cy", y); ("r", "5"); ("fill", vdark t);
                  ("stroke", shine t); ("stroke-width", "1.5")] "/>";
    Text (br 15);
    Tag "circle" [("cx", x); ("cy", y); ("r", "2"); ("fill", light t)] "/>" ].

Definition rivets (t : Tones) : list node := for_loop 24 0 (rivet t) [].

Definition band_radius (i : nat) : float := 234 + Number_of_nat i * 3.
Definition band_opacity (i : nat) : float := 0.12 + Number_of_nat i * 0.04.

Definition band (t : Tones) (i : nat) : list node :=
  let ri := band_radius i in
  let op := band_opacity i in
  [ Tag "circle" [("cx", "256"); ("cy", "256"); ("r", Number_toString host ri);
                  ("fill", "none"); ("stroke", light t); ("stroke-width", "1.5");
                  ("opacity", Number_toString host op)] "/>" ].

Definition bands (t : Tones) : list node := for_loop 5 0 (band t) [].

Definition rivetedMetal (t : Tones) : list node :=
  [ Text (br 4); circle256 "252" (vdark t);
    Text (br 4); circle256 "249" (dark t);
    Text (br 4); circle256 "237" (base t);
    Text (br 4) ] ++ bands t ++
  [ Text (br 4) ] ++ rivets t ++
  [ Text (br 4); circle256 "233" (vdark t);
    Text (br 2) ].

Definition frameRivetedMetal (color : string) : string :=
  let t := toneVariants color in
  svgWrap (print (rivetedMetal t)).

(** *** Frame 6: Gem Border *)

(** [pts.map(p => p.map(v => v.toFixed(1)).join(',')).join(' ')]. *)
Definition points_attr (pts : list (float * float)) : string :=
  String.concat " " (map (fun p => String.concat "," [fixed1 (fst p); fixed1 (snd p)]) pts).

Definition gem_points (cx cy angle size : float) : list (float * float) :=
  let a := angle * Math_PI / 180 in
  let rc := 242 in
  let gx := cx + rc * cos a in
  let gy := cy + rc * sin a in
  let s := size in
  [ (gx + cos a * s * 0.4, gy + sin a * s * 0.4);
    (gx + cos (a + 1.2) * s * 0.55, gy + sin (a + 1.2) * s * 0.55);
    (gx + cos (a + Math_PI) * s * 0.35, gy + sin (a + Math_PI) * s * 0.35);
    (gx + cos (a - 1.2) * s * 0.55, gy + sin (a - 1.2) * s * 0.55) ].

Definition gem (t : Tones) (cx cy angle size : float) : list node :=
  let a := angle * Math_PI / 180 in
  let rc := 242 in
  let gx := cx + rc * cos a in
  let gy := cy + rc * sin a in
  let pts := points_attr (gem_points cx cy angle size) in
  [ Text (br 6);
    Tag "polygon" [("points", pts); ("fill", base t); ("stroke", vdark t);
                   ("stroke-width", "1")] "/>";
    Text (br 6);
    Tag "polygon" [("points", pts); ("fill", "url(#gemGrad)"); ("opacity", "0.4")] "/>";
    Text (br 6);
    Tag "circle" [("cx", fixed1 gx); ("cy", fixed1 gy); ("r", fixed1 (size * 0.18));
                  ("fill", shine t); ("opacity", "0.7")] "/>";
    Text (br 4) ].

Definition gems (t : Tones) : list node :=
  for_loop 8 0 (fun i => gem t 256 256 (spoke_degrees i) 13) [].

(** The angle, in degrees, of the [i]-th bead. *)
Definition bead_degrees (i : nat) : float := (Number_of_nat i + 0.5) * 45 - 90.

Definition bead (t : Tones) (i : nat) : list node :=
  let a := bead_degrees i * Math_PI / 180 in
  let r := 242 in
  let bx := fixed1 (256 + r * cos a) in
  let by_ := fixed1 (256 + r * sin a) in
  [ Tag "circle" [("cx", bx); ("cy", by_); ("r", "3.5"); ("fill", light t);
                  ("stroke", vdark t); ("stroke-width", "1")] "/>" ].

Definition beads (t : Tones) : list node := for_loop 8 0 (bead t) [].

Definition gemBorder (t : Tones) : list node :=
  [ Text (br 4); Tag "defs" [] ">";
    Text (br 6); Tag "radialGradient" [("id", "gemGrad"); ("cx", "35%"); ("cy", "35%");
                                       ("r", "65%")] ">";
    Text (br 8); Tag "stop" [("offset", "0%"); ("stop-color", "white");
                             ("stop-opacity", "0.9")] "/>";
    Text (br 8); Tag "stop" [("offset", "100%"); ("stop-color", "white");
                             ("stop-opacity", "0")] "/>";
    Text (br 6); Text "</radialGradient>";
    Text (br 4); Text "</defs>";
    Text (br 4); circle256 "252" (vdark t);
    Text (br 4); circle256 "249" (dark t);
    Text (br 4); circle256 "236" (base t);
    Text (br 4); circle256 "233" (dark t);
    Text (br 4) ] ++ beads t ++
  [ Text (br 4) ] ++ gems t ++
  [ Text (br 2) ].

Definition frameGemBorder (color : string) : string :=
  let t := toneVariants color in
  svgWrap (print (gemBorder t)).

(** *** The registry *)

Record FrameDescriptor : Type := mkFrame
  { id : string; label : string; fn : string -> string }.

Definition FRAMES : list FrameDescriptor :=
  [ mkFrame "simple-ring"    "Simple Ring" frameSimpleRing;
    mkFrame "double-ring"    "Double Ring" frameDoubleRing;
    mkFrame "rope-twist"     "Rope Twist"  frameRopeTwist;
    mkFrame "ornate-fantasy" "Ornate"      frameOrnateFantasy;
    mkFrame "riveted-metal"  "Riveted"     frameRivetedMetal;
    mkFrame "gem-border"     "Gems"        frameGemBorder ].

End Frames.

(** ** app.js: picking a frame

    [FRAMES[state.frameIndex].fn(state.color)]: the registry is indexed by
    position.  An index outside the array reads [undefined], and reading
    [.fn] of it throws a TypeError before any frame is drawn. *)
Inductive outcome : Type :=
| Returned (svg : string)
| TypeError.

Definition frameAt (host : Host) (frameIndex : nat) (color : string) : outcome :=
  match nth_error (FRAMES host) frameIndex with
  | Some frame => Returned (fn frame color)
  | None => TypeError
  end.

(** ** app.js: the image under the frame

    The state of the page and the functions that move and scale the image;
    the listeners are taken after the pointer is converted to canvas
    coordinates. *)

Module App.

Definition SIZE : float := 512.
Definition CX : float := SIZE / 2.
Definition CY : float := SIZE / 2.
Definition CLIP_R : float := 232.
Definition HANDLE_R : float := 8.
Definition HANDLE_HIT : float := 16.

(** What the code reads of the uploaded HTMLImageElement. *)
Record Image : Type := mkImage { width : float; height : float }.

Inductive Mode : Type := none | pan | resize.

Record State : Type := mkState
  { image : option Image;
    panX : float;
    panY : float;
    zoom : float;
    frameIndex : nat;
    color : string;
    mode : Mode;
    resizeCorner : Z;
    resizeStartZoom : float;
    resizeFixedCorner : float * float;
    resizeActiveCorner : float * float;
    resizeMouseStartX : float;
    resizeMouseStartY : float;
    lastX : float;
    lastY : float;
    lastPinchDist : option float }.

Definition state : State :=
  {| image := None; panX := 0; panY := 0; zoom := 1; frameIndex := 0;
     color := "#c0922a"; mode := none; resizeCorner := -1;
     resizeStartZoom := 1; resizeFixedCorner := (0, 0); resizeActiveCorner := (0, 0);
     resizeMouseStartX := 0; resizeMouseStartY := 0; lastX := 0; lastY := 0;
     lastPinchDist := None |}.

(** The assignments to panX, panY and zoom. *)
Definition set_view (st : State) (x y z : float) : State :=
  {| image := image st; panX := x; panY := y; zoom := z; frameIndex := frameIndex st;
     color := color st; mode := mode st; resizeCorner := resizeCorner st;
     resizeStartZoom := resizeStartZoom st; resizeFixedCorner := resizeFixedCorner st;
     resizeActiveCorner := resizeActiveCorner st;
     resizeMouseStartX := resizeMouseStartX st; resizeMouseStartY := resizeMouseStartY st;
     lastX := lastX st; lastY := lastY st; lastPinchDist := lastPinchDist st |}.

(** The four corners of the image on the canvas: TL, TR, BL, BR. *)
Definition getCorners (st : State) : list (float * float) :=
  match image st with
  | None => []
  | Some img =>
      let w := width img * zoom st in
      let h := height img * zoom st in
      [ (panX st, panY st); (panX st + w, panY st);
        (panX st, panY st + h); (panX st + w, panY st + h) ]
  end.

Definition clampHandle (x y : float) : float * float :=
  let pad := HANDLE_R + 2 in
  (Math_max2 pad (Math_min2 (SIZE - pad) x), Math_max2 pad (Math_min2 (SIZE - pad) y)).

(** Whether the handle of a corner is under the pointer. *)
Definition handle_hit (mx my : float) (corner : float * float) : bool :=
  let '(hx, hy) := clampHandle (fst corner) (snd corner) in
  let dx := mx - hx in
  let dy := my - hy in
  dx * dx + dy * dy <=? HANDLE_HIT * HANDLE_HIT.

(** The loop of hitTestCorner from index [i] on. *)
Fixpoint hit_from (corners : list (float * float)) (i : Z) (mx my : float) : Z :=
  match corners with
  | [] => -1
  | c :: rest => if handle_hit mx my c then i else hit_from rest (i + 1) mx my
  end.

Definition hitTestCorner (st : State) (mx my : float) : Z :=
  hit_from (getCorners st) 0 mx my.

Definition fitImage (st : State) : State :=
  match image st with
  | None => st
  | Some img =>
      let diameter := CLIP_R * 2 in
      let scale := Math_max2 (diameter / width img) (diameter / height img) in
      set_view st (CX - (width img * scale) / 2) (CY - (height img * scale) / 2) scale
  end.

Section Resize.

(** Math.sqrt and the operator [**], which ECMAScript leaves
    implementation-approximated. *)
Context (Math_sqrt : float -> float) (pow : float -> float -> float).

Definition applyResize (st : State) (mx my : float) : State :=
  match image st with
  | None => st
  | Some img =>
      let '(fX, fY) := resizeFixedCorner st in
      let '(aX, aY) := resizeActiveCorner st in
      let dx := mx - resizeMouseStartX st in
      let dy := my - resizeMouseStartY st in
      let newAX := aX + dx in
      let newAY := aY + dy in
      let origDiag := Math_sqrt (pow (aX - fX) 2 + pow (aY - fY) 2) in
      let newDiag := Math_sqrt (pow (newAX - fX) 2 + pow (newAY - fY) 2) in
      if (origDiag =? 0) || (newDiag <? 1) then st
      else
        let newZoom := Math_max2 0.05 (resizeStartZoom st * (newDiag / origDiag)) in
        let newW := width img * newZoom in
        let newH := height img * newZoom in
        let fixedIndex := (3 - resizeCorner st)%Z in
        let '(x, y) :=
          match fixedIndex with
          | 0%Z => (fX, fY)
          | 1%Z => (fX - newW, fY)
          | 2%Z => (fX, fY - newH)
          | 3%Z => (fX - newW, fY - newH)
          | _ => (panX st, panY st)
          end in
        set_view st x y newZoom
  end.

End Resize.

(** [array[i]]: undefined outside the array. *)
Definition item {A : Type} (array : list A) (i : Z) : option A :=
  if (i <? 0)%Z then None else nth_error array (Z.to_nat i).

(** The mousedown listener, with the pointer already in canvas coordinates
    ([mx], [my]) beside the client coordinates of the event.  Spreading an
    element that is not in the array throws a TypeError, here [None]; the
    cursor of the overlay is left out. *)
Definition mousedown (st : State) (mx my clientX clientY : float) : option State :=
  let start_pan :=
    Some {| image := image st; panX := panX st; panY := panY st; zoom := zoom st;
            frameIndex := frameIndex st; color := color st;
            mode := pan; resizeCorner := resizeCorner st;
            resizeStartZoom := resizeStartZoom st;
            resizeFixedCorner := resizeFixedCorner st;
            resizeActiveCorner := resizeActiveCorner st;
            resizeMouseStartX := resizeMouseStartX st;
            resizeMouseStartY := resizeMouseStartY st;
            lastX := clientX; lastY := clientY; lastPinchDist := lastPinchDist st |} in
  match image st with
  | None => start_pan
  | Some _ =>
      let corner := hitTestCorner st mx my in
      if (corner =? -1)%Z then start_pan
      else
        let corners := getCorners st in
        let fixedIndex := (3 - corner)%Z in
        match item corners fixedIndex, item corners corner with
        | Some fixed, Some active =>
            Some {| image := image st; panX := panX st; panY := panY st; zoom := zoom st;
                    frameIndex := frameIndex st; color := color st;
                    mode := resize; resizeCorner := corner;
                    resizeStartZoom := zoom st;
                    resizeFixedCorner := fixed;
                    resizeActiveCorner := active;
                    resizeMouseStartX := mx;
                    resizeMouseStartY := my;
                    lastX := lastX st; lastY := lastY st;
                    lastPinchDist := lastPinchDist st |}
        | _, _ => None
        end
  end.

(** The wheel listener, with the pointer already in canvas coordinates. *)
Definition wheel (st : State) (deltaY mx my : float) : State :=
  let factor := if deltaY <? 0 then 1.08 else 0.93 in
  let newZoom := Math_max2 0.05 (zoom st * factor) in
  set_view st (mx - (mx - panX st) * (newZoom / zoom st))
              (my - (my - panY st) * (newZoom / zoom st))
              newZoom.

(** The preview: [render(targetCtx, targetSize)], with the calls it makes on
    the canvas in a list. *)



Section Render.

(** [svgToImage]: whether the browser loads the text as an image (the
    promise resolves) or not (it rejects). *)
Context (host : Host) (svgToImage : string -> bool).



End Render.

End App.

(** * The vocabulary of the statements *)

Definition is_hex_digit (c : ascii) : bool :=
  match hex_value c with Some _ => true | None => false end.

(** A valid accent color: "#" and six hexadecimal digits, in either case. *)
Definition valid_color (hex : string) : bool :=
  match hex with
  | String "#" (String c1 (String c2 (String c3 (String c4 (String c5 (String c6 "")))))) =>
      forallb is_hex_digit [c1; c2; c3; c4; c5; c6]
  | _ => false
  end.

Definition byte_values : list Z := map Z.of_nat (seq 0 256).

(** The Number a channel byte becomes: [parseInt(..) / 255]. *)
Definition channel (z : Z) : float := Number_of_Z z / 255.

Definition channel_table : list float := Eval vm_compute in map channel byte_values.

(** The body of hexToHSL once the three channels are read. *)
Definition hslOfChannels (r g b : float) : float * float * float :=
  let max := Math_max3 r g b in
  let min := Math_min3 r g b in
  let l := (max + min) / 2 in
  let '(h, s) :=
    if max =? min then (0, 0)
    else
      let d := max - min in
      let s := if 0.5 <? l then d / (2 - max - min) else d / (max + min) in
      let h :=
        if max =? r then ((g - b) / d + (if g <? b then 6 else 0)) / 6
        else if max =? g then ((b - r) / d + 2) / 6
        else if max =? b then ((r - g) / d + 4) / 6
        else nan in
      (h, s) in
  (Math_round (h * 360), Math_round (s * 100), Math_round (l * 100)).

Definition integer_between (lo hi : Z) (x : float) : Prop :=
  exists z : Z, (lo <= z <= hi)%Z /\ x = Number_of_Z z.

(** A Number that is not negative (nor -0) and lies below [u]. *)
Definition below (u x : float) : bool := negb (get_sign x) && (x <? u).

Definition hex_pair (c1 c2 : ascii) : option Z :=
  match hex_value c1, hex_value c2 with
  | Some d1, Some d2 => Some (16 * d1 + d2)%Z
  | _, _ => None
  end.

Definition all_ascii : list ascii := Eval vm_compute in map ascii_of_nat (seq 0 256).

Definition pair_ok (c1 c2 : ascii) : bool :=
  match hex_pair c1 c2 with
  | Some z =>
      Leibniz.eqb (parseInt16 (String c1 (String c2 ""))) (Number_of_Z z)
      && (0 <=? z)%Z && (z <? 256)%Z
  | None => true
  end.

(** The three channel bytes of a color, when it is valid. *)
Definition channel_bytes (hex : string) : option (Z * Z * Z) :=
  match hex with
  | String "#" (String c1 (String c2 (String c3 (String c4 (String c5 (String c6 "")))))) =>
      match hex_pair c1 c2, hex_pair c3 c4, hex_pair c5 c6 with
      | Some r, Some g, Some b => Some (r, g, b)
      | _, _, _ => None
      end
  | _ => None
  end.

Definition indexed_channels : list (Z * float) :=
  Eval vm_compute in map (fun z => (z, channel z)) byte_values.

(** The larger byte gives the larger channel. *)
Definition extrema_ok (x y : Z * float) : bool :=
  Leibniz.eqb (Math_max2 (snd x) (snd y)) (if (fst x <? fst y)%Z then snd y else snd x)
  && Leibniz.eqb (Math_min2 (snd x) (snd y)) (if (fst x <? fst y)%Z then snd x else snd y).

(** The triple before rounding. *)
Definition hslRaw (r g b : float) : float * float * float :=
  let max := Math_max3 r g b in
  let min := Math_min3 r g b in
  let l := (max + min) / 2 in
  let '(h, s) :=
    if max =? min then (0, 0)
    else
      let d := max - min in
      let s := if 0.5 <? l then d / (2 - max - min) else d / (max + min) in
      let h :=
        if max =? r then ((g - b) / d + (if g <? b then 6 else 0)) / 6
        else if max =? g then ((b - r) / d + 2) / 6
        else if max =? b then ((r - g) / d + 4) / 6
        else nan in
      (h, s) in
  (h * 360, s * 100, l * 100).

(** Saturation and lightness only look at the largest and the smallest
    channel. *)
Definition sat_light (max min : float) : float * float :=
  let l := (max + min) / 2 in
  let s :=
    if max =? min then 0
    else
      let d := max - min in
      if 0.5 <? l then d / (2 - max - min) else d / (max + min) in
  (s * 100, l * 100).

Definition sat_light_ok (x y : Z * float) : bool :=
  if (fst y <=? fst x)%Z then
    below 100.5 (fst (sat_light (snd x) (snd y)))
    && below 100.5 (snd (sat_light (snd x) (snd y)))
  else true.

(** The order of two bytes is the order of their channels. *)
Definition channel_order_ok (x y : Z * float) : bool :=
  Bool.eqb (snd x <? snd y) (fst x <? fst y)%Z
  && Bool.eqb (snd x <=? snd y) (fst x <=? fst y)%Z
  && Bool.eqb (snd x =? snd y) (fst x =? fst y)%Z.

(** The hue before rounding in the sector of the largest channel: [c] is the
    offset of the sector, [x] and [y] the two other channels in the order the
    sector takes them and [d] the spread. *)
Definition hue_sector (c x y d : float) : float := ((x - y) / d + c) / 6 * 360.

(** The three sectors at once, for a largest channel [hi] and two channels
    [x] and [y] that do not exceed it. *)
Definition hue_sectors_ok (hi x y : float) : bool :=
  if (x <=? hi) && (y <=? hi) then
    let lo := if x <? y then x else y in
    if hi =? lo then true
    else
      let d := hi - lo in
      below 360.5 (hue_sector (if x <? y then 6 else 0) x y d)
      && below 360.5 (hue_sector 2 x y d)
      && below 360.5 (hue_sector 4 x y d)
  else true.

Definition range (lo n : nat) : list Z := map Z.of_nat (seq lo n).

(** On a percentage the float clamps of toneVariants are the integer ones. *)
Definition clamps_ok (z : Z) : bool :=
  let x := Number_of_Z z in
  Leibniz.eqb (Math_max2 (x - 5) 0) (Number_of_Z (Z.max (z - 5) 0))
  && Leibniz.eqb (Math_min2 (x + 22) 92) (Number_of_Z (Z.min (z + 22) 92))
  && Leibniz.eqb (Math_min2 (x + 5) 100) (Number_of_Z (Z.min (z + 5) 100))
  && Leibniz.eqb (Math_max2 (x - 22) 8) (Number_of_Z (Z.max (z - 22) 8))
  && Leibniz.eqb (Math_min2 (x + 10) 100) (Number_of_Z (Z.min (z + 10) 100))
  && Leibniz.eqb (Math_max2 (x - 38) 4) (Number_of_Z (Z.max (z - 38) 4))
  && Leibniz.eqb (Math_max2 (x - 15) 0) (Number_of_Z (Z.max (z - 15) 0))
  && Leibniz.eqb (Math_min2 (x + 38) 96) (Number_of_Z (Z.min (z + 38) 96)).

(** The order of two small integers is the order of their Numbers. *)
Definition order_ok (x y : Z) : bool :=
  Bool.eqb (Number_of_Z x <=? Number_of_Z y) (x <=? y)%Z.

(** The comparison [<=] of two Numbers. *)
Definition le (x y : float) : Prop := (x <=? y) = true.

(** The ordering of the palette by the lightness each tone is built with. *)
Definition palette_ordered (a : ToneArgs) : Prop :=
  le (lightness (vdark_hsl a)) (lightness (dark_hsl a))
  /\ le (lightness (dark_hsl a)) (lightness (base_hsl a))
  /\ le (lightness (base_hsl a)) (lightness (light_hsl a))
  /\ le (lightness (light_hsl a)) (lightness (shine_hsl a)).

Definition tones_of_args (a : ToneArgs) : Tones :=
  {| base := hex_of_hsl (base_hsl a);
     light := hex_of_hsl (light_hsl a);
     dark := hex_of_hsl (dark_hsl a);
     vdark := hex_of_hsl (vdark_hsl a);
     shine := hex_of_hsl (shine_hsl a) |}.

Definition hsl_within (hue_max : Z) (t : float * float * float) : Prop :=
  integer_between 0 hue_max (fst (fst t))
  /\ integer_between 0 100 (snd (fst t))
  /\ integer_between 0 100 (snd t).

Definition tones_valid (t : Tones) : bool :=
  forallb valid_color [base t; light t; dark t; vdark t; shine t].

Definition grey_ok (c : float) : bool :=
  let t := hslOfChannels c c c in
  Leibniz.eqb (fst (fst t)) 0 && Leibniz.eqb (snd (fst t)) 0
  && tones_valid (tones_of_args (toneArgsOf t)).

(** A to F in lower case; every other character unchanged. *)
Definition fold_case (c : ascii) : ascii :=
  let n := N_of_ascii c in
  if ((65 <=? n) && (n <=? 70))%N then ascii_of_N (n + 32) else c.

Fixpoint fold_hex_case (s : string) : string :=
  match s with
  | String c s' => String (fold_case c) (fold_hex_case s')
  | EmptyString => EmptyString
  end.

(** Two strings that differ only in the case of hexadecimal digits. *)
Definition same_up_to_case (s1 s2 : string) : Prop :=
  fold_hex_case s1 = fold_hex_case s2.

Definition tag_name (n : node) : string :=
  match n with Tag name _ _ => name | Text _ => "" end.

Definition attr (key : string) (n : node) : string :=
  match n with
  | Tag _ attrs _ =>
      match find (fun a => String.eqb (fst a) key) attrs with
      | Some a => snd a
      | None => ""
      end
  | Text _ => ""
  end.

Definition tagged (name : string) (ns : list node) : list node :=
  filter (fun n => String.eqb (tag_name n) name) ns.

(** The filled circles centered on the canvas (the ones drawn without a
    stroke), as radius and fill, in painting order. *)
Definition discs (ns : list node) : list (string * string) :=
  map (fun n => (attr "r" n, attr "fill" n))
      (filter (fun n => String.eqb (attr "cx" n) "256" && String.eqb (attr "cy" n) "256"
                        && String.eqb (attr "stroke" n) "")
              (tagged "circle" ns)).


Definition plain_fixed (x : float) (digits : nat) : string := toString16 (Math_round x).

(** A host to run the frames on: the identity for both trigonometric
    functions and integer text for the Numbers. *)
Definition plain_host : Host :=
  {| Math_cos := fun x => x;
     Math_sin := fun x => x;
     toFixed := plain_fixed;
     Number_toString := fun x => toString16 (Math_round x) |}.

(** A point of the canvas, in user units. *)
Definition point : Type := Q * Q.

Definition covers (s : shape) (p : point) : bool :=
  match s with
  | Rect w h =>
      Qle_bool 0 (fst p) && Qle_bool (fst p) (inject_Z w)
      && Qle_bool 0 (snd p) && Qle_bool (snd p) (inject_Z h)
  | Disc cx cy r =>
      Qle_bool ((fst p - inject_Z cx) * (fst p - inject_Z cx)
                + (snd p - inject_Z cy) * (snd p - inject_Z cy))%Q
               (inject_Z (r * r))
  end.

(** The luminance of the two paints a mask uses. *)
Definition luminance (fill : string) : Q :=
  if String.eqb fill "white" then 1%Q else 0%Q.

(** The value of a mask at a point: the luminance of the last shape painted
    over it, and nothing where no shape is. *)
Definition mask_value (shapes : list painted) (p : point) : Q :=
  fold_left (fun v s => if covers (outline s) p then luminance (paint s) else v) shapes 0%Q.

(** What shows of a masked group at a point: the opacity of its content
    times the value of the mask. *)
Definition masked_alpha (shapes : list painted) (content_alpha : point -> Q) (p : point) : Q :=
  (content_alpha p * mask_value shapes p)%Q.

(** Strictly inside the circle of radius 232 around (256, 256). *)
Definition in_hole (p : point) : Prop :=
  ((fst p - 256) * (fst p - 256) + (snd p - 256) * (snd p - 256) < 232 * 232)%Q.

(** What hslToHex computes for one channel: the lightness, the chroma and the
    shade of the channel, which only depends on the hue. *)
Definition lum (l : float) : float := l / 100.
Definition chroma (s l : float) : float := (s / 100) * Math_min2 (l / 100) (1 - l / 100).
Definition shade (h n : float) : float :=
  let k := rem (n + h / 30) 12 in
  Math_max2 (Math_min3 (k - 3) (9 - k) 1) (-1).
Definition channel255 (lc : float * float) (sh : float) : float :=
  255 * (fst lc - snd lc * sh).

Definition hex_byte_text (x : float) : string := padStart (toString16 (Math_round x)) 2 "0".

Fixpoint dedup (seen : list float) (l : list float) : list float :=
  match l with
  | [] => rev seen
  | x :: l' => if existsb (Leibniz.eqb x) seen then dedup seen l' else dedup (x :: seen) l'
  end.

(** The shades of the integer hues, each one once. *)
Definition shade_table : list float :=
  Eval vm_compute in
    dedup [] (flat_map (fun h => map (shade (Number_of_Z h)) [0; 8; 4]) (range 0 361)).

(** The Numbers 0 to 100. *)
Definition percent_table : list float := Eval vm_compute in map Number_of_Z (range 0 101).

Definition channels_ok (s l : float) : bool :=
  forallb (fun sh => below 255.5 (channel255 (lum l, chroma s l) sh)) shade_table.

Definition is_hex_pair (s : string) : bool :=
  match s with
  | String c1 (String c2 "") => is_hex_digit c1 && is_hex_digit c2
  | _ => false
  end.

Definition NaN_color : string := "#NaNNaNNaN".

Definition clamp_coordinate (x : float) : float :=
  Math_max2 (App.HANDLE_R + 2) (Math_min2 (App.SIZE - (App.HANDLE_R + 2)) x).

Definition sample_image : App.Image := App.mkImage 800 600.

(** A drag of the bottom-right corner of a fitted 800 x 600 image. *)
Definition sample_drag : App.State :=
  let st := App.fitImage (App.mkState (Some sample_image) 0 0 1 0 "#c0922a" App.none (-1) 1
                                      (0, 0) (0, 0) 0 0 0 0 None) in
  {| App.image := App.image st; App.panX := App.panX st; App.panY := App.panY st;
     App.zoom := App.zoom st; App.frameIndex := 0; App.color := "#c0922a";
     App.mode := App.resize; App.resizeCorner := 3;
     App.resizeStartZoom := App.zoom st;
     App.resizeFixedCorner := (App.panX st, App.panY st);
     App.resizeActiveCorner := (App.panX st + 800 * App.zoom st, App.panY st + 600 * App.zoom st);
     App.resizeMouseStartX := 500; App.resizeMouseStartY := 480;
     App.lastX := 0; App.lastY := 0; App.lastPinchDist := None |}.

Definition square (x y : float) : float := x * x.

(** Inside the canvas and outside the disc of radius 232. *)
Definition in_ring_area (p : point) : Prop :=
  (0 <= fst p <= 512 /\ 0 <= snd p <= 512
   /\ 232 * 232 < (fst p - 256) * (fst p - 256) + (snd p - 256) * (snd p - 256))%Q.

(** ** Reading a document

    What a scene is made of and what a renderer shows of it, read off the
    pieces of the text. *)

Definition is_blank (s : string) : bool :=
  forallb is_white_space (list_ascii_of_string s).

Definition has_angle (s : string) : bool :=
  existsb (fun c => Ascii.eqb c "<" || Ascii.eqb c ">")%char (list_ascii_of_string s).

(** A comment: "<!--", text without angle brackets, "-->". *)
Definition is_comment (s : string) : bool :=
  let n := String.length s in
  (7 <=? n)%nat && String.eqb (substring 0 4 s) "<!--"
  && String.eqb (substring (n - 3) 3 s) "-->"
  && negb (has_angle (substring 4 (n - 7) s)).

(** The name of a closing tag, "</name>". *)
Definition closing (s : string) : option string :=
  let n := String.length s in
  let name := substring 2 (n - 3) s in
  if (4 <=? n)%nat && String.eqb s ("</" ++ name ++ ">") && negb (has_angle name)
  then Some name else None.

(** The pieces of a scene that are markup: everything but the blanks and the
    comments between the elements. *)
Definition elements (ns : list node) : list node :=
  filter (fun n => match n with
                   | Tag _ _ _ => true
                   | Text s => negb (is_blank s || is_comment s)
                   end) ns.

(** An element without content, with the elements it is nested in, the
    innermost first. *)
Record leaf : Type := mkLeaf { leaf_node : node; ancestors : list node }.

(** The elements without content of a sequence of pieces, read as markup: a
    tag closed by ">" opens an element, one closed by "/>" is empty, the text
    "</name>" closes the innermost open element; text that is none of a
    blank, a comment and a closing tag is not read, and neither is a
    sequence that leaves an element open. *)
Fixpoint read (open : list node) (ns : list node) : option (list leaf) :=
  match ns with
  | [] => match open with [] => Some [] | _ :: _ => None end
  | Tag name attrs close :: rest =>
      if String.eqb close ">" then read (Tag name attrs close :: open) rest
      else if String.eqb close "/>" || String.eqb close " />"
      then option_map (cons (mkLeaf (Tag name attrs close) open)) (read open rest)
      else None
  | Text s :: rest =>
      if is_blank s || is_comment s then read open rest
      else match closing s, open with
           | Some name, top :: open' =>
               if String.eqb name (tag_name top) then read open' rest else None
           | _, _ => None
           end
  end.

Definition inside (name : string) (l : leaf) : bool :=
  existsb (fun a => String.eqb (tag_name a) name) (ancestors l).

(** The elements a renderer paints: the ones that are not part of a
    definition. *)
Definition painted_leaves (ls : list leaf) : list leaf :=
  filter (fun l => negb (inside "defs" l || inside "mask" l)) ls.

Definition read_Z (s : string) : option Z :=
  option_map Z.of_int (NilZero.int_of_string s).

(** A rectangle at the origin or a circle, with whole coordinates. *)
Definition read_shape (n : node) : option painted :=
  if String.eqb (tag_name n) "rect" && String.eqb (attr "x" n) "" && String.eqb (attr "y" n) ""
  then match read_Z (attr "width" n), read_Z (attr "height" n) with
       | Some w, Some h => Some (mkPainted (Rect w h) (attr "fill" n))
       | _, _ => None
       end
  else if String.eqb (tag_name n) "circle"
  then match read_Z (attr "cx" n), read_Z (attr "cy" n), read_Z (attr "r" n) with
       | Some cx, Some cy, Some r => Some (mkPainted (Disc cx cy r) (attr "fill" n))
       | _, _, _ => None
       end
  else None.

Fixpoint all_some {A : Type} (l : list (option A)) : option (list A) :=
  match l with
  | [] => Some []
  | Some x :: l' => option_map (cons x) (all_some l')
  | None :: _ => None
  end.

(** The shapes of the mask [id], in painting order. *)
Definition mask_shapes (id : string) (ls : list leaf) : option (list painted) :=
  all_some
    (map (fun l => read_shape (leaf_node l))
         (filter (fun l => existsb (fun a => String.eqb (tag_name a) "mask"
                                             && String.eqb (attr "id" a) id) (ancestors l))
                 ls)).

(** Whether an element lies in a group that the mask [id] applies to. *)
Definition masked_by (id : string) (l : leaf) : bool :=
  existsb (fun a => String.eqb (attr "mask" a) ("url(#" ++ id ++ ")")) (ancestors l).

(** One layer painted over another, as opacities. *)
Definition over (top below : Q) : Q := (top + below * (1 - top))%Q.

(** How opaque a document is at a point, given how opaque each of its
    elements is there on its own: the painted elements one over the other,
    each one times the value of the mask "fm" when it lies under it. *)
Definition document_alpha (element_alpha : node -> point -> Q) (doc : list node) (p : point)
  : option Q :=
  match read [] doc with
  | None => None
  | Some ls =>
      match mask_shapes "fm" ls with
      | None => None
      | Some shapes =>
          Some (fold_left
                  (fun below l =>
                     over (element_alpha (leaf_node l) p
                           * (if masked_by "fm" l then mask_value shapes p else 1))%Q below)
                  (painted_leaves ls) 0%Q)
      end
  end.

(** The document svgWrap writes around a scene. *)
Definition document (scene : list node) : list node :=
  [ Tag "svg" [("xmlns", "http://www.w3.org/2000/svg");
               ("xmlns:xlink", "http://www.w3.org/1999/xlink");
               ("width", "512"); ("height", "512"); ("viewBox", "0 0 512 512")] ">";
    Text (br 4); Tag "defs" [] ">";
    Text (br 6); Tag "mask" [("id", "fm")] ">";
    Text (br 8); Tag "rect" [("width", "512"); ("height", "512"); ("fill", "white")] "/>";
    Text (br 8); Tag "circle" [("cx", "256"); ("cy", "256"); ("r", "232"); ("fill", "black")] "/>";
    Text (br 6); Text "</mask>";
    Text (br 4); Text "</defs>";
    Text (br 4); Tag "g" [("mask", "url(#fm)")] ">" ]
  ++ scene ++ [ Text "</g>"; Text (br 2); Text "</svg>" ].

(** The scenes of the six frames, in the order of the registry. *)
Definition scenes (host : Host) (t : Tones) : list (list node) :=
  [ simpleRing t; doubleRing t; ropeTwist host t; ornateFantasy host t;
    rivetedMetal host t; gemBorder host t ].

(** The fill a scene shows at a point when its circles are painted one over
    the other: the fill of the last one that covers the point. *)
Definition shown (scene : list node) (p : point) : option string :=
  fold_left (fun top n =>
               match read_shape n with
               | Some s => if covers (outline s) p then Some (paint s) else top
               | None => top
               end) (elements scene) None.

(** An element that is opaque where its outline is and nowhere else. *)
Definition solid_alpha (n : node) (p : point) : Q :=
  match read_shape n with
  | Some s => if covers (outline s) p then 1%Q else 0%Q
  | None => 0%Q
  end.

(** The square of the distance of a point to the center of the canvas. *)
Definition distance2 (p : point) : Q :=
  ((fst p - 256) * (fst p - 256) + (snd p - 256) * (snd p - 256))%Q.

(** The points between two circles around the center: outside the inner
    one, inside the outer one or on it. *)
Definition in_band (outer inner : Z) (p : point) : Prop :=
  (inject_Z (inner * inner) < distance2 p /\ distance2 p <= inject_Z (outer * outer))%Q.



(** A scene that lies under the mask "fm" of its document, whole: the
    document reads as markup, its mask is the white rectangle with the black
    disc, what it paints is what the scene paints, all of it in the masked
    group; and the document is transparent inside the disc. *)
Definition scene_under_mask (scene : list node) : Prop :=
  (exists ls scene_ls,
      read [] (document scene) = Some ls
      /\ read [] scene = Some scene_ls
      /\ mask_shapes "fm" ls =
         Some [ mkPainted (Rect 512 512) "white"; mkPainted (Disc 256 256 232) "black" ]
      /\ map leaf_node (painted_leaves ls) = map leaf_node (painted_leaves scene_ls)
      /\ forallb (masked_by "fm") (painted_leaves ls) = true)
  /\ (forall (element_alpha : node -> point -> Q) (p : point),
        in_hole p ->
        exists a, document_alpha element_alpha (document scene) p = Some a /\ (a == 0)%Q).

(** * Verification *)

(** ** Accent colors *)

(** ** The channels of a valid color *)

Lemma byte_values_spec (z : Z) : (0 <= z < 256)%Z -> In z byte_values.
Proof.
  intros Hz. unfold byte_values.
  replace z with (Z.of_nat (Z.to_nat z)) by lia.
  apply in_map, in_seq. lia.
Qed.

Lemma channel_table_spec (z : Z) : (0 <= z < 256)%Z -> In (channel z) channel_table.
Proof.
  intros Hz.
  change channel_table with (map channel byte_values).
  now apply in_map, byte_values_spec.
Qed.

Lemma hexToHSL_channels (hex : string) :
  hexToHSL hex =
  hslOfChannels (parseInt16 (slice hex 1 3) / 255)
                (parseInt16 (slice hex 3 5) / 255)
                (parseInt16 (slice hex 5 7) / 255).
Proof. reflexivity. Qed.

(** ** Integral Numbers *)

Lemma digits2_pos_bound (m : positive) : (Z.pos m < 2 ^ Z.pos (digits2_pos m))%Z.
Proof.
  induction m as [m IH|m IH|]; cbn [digits2_pos].
  - rewrite Pos2Z.inj_succ, Z.pow_succ_r by lia. lia.
  - rewrite Pos2Z.inj_succ, Z.pow_succ_r by lia. lia.
  - reflexivity.
Qed.

Lemma Prim2SF_mantissa (x : float) (s : bool) (m : positive) (e : Z) :
  Prim2SF x = S754_finite s m e -> (Z.pos m < 2 ^ 53)%Z.
Proof.
  intros E. pose proof (Prim2SF_valid x) as V. rewrite E in V.
  cbn [valid_binary] in V. unfold bounded, canonical_mantissa, fexp in V.
  apply andb_true_iff in V. destruct V as [V _]. apply Z.eqb_eq in V.
  pose proof (digits2_pos_bound m) as B.
  assert (Z.pos (digits2_pos m) <= 53)%Z by (unfold prec in V; lia).
  eapply Z.lt_le_trans; [exact B|]. apply Z.pow_le_mono_r; lia.
Qed.

Lemma Prim2SF_sign (x : float) :
  get_sign x = false ->
  match Prim2SF x with
  | S754_zero s | S754_infinity s | S754_finite s _ _ => s = false
  | S754_nan => True
  end.
Proof.
  intros Hs. unfold Prim2SF.
  destruct (is_nan x); [exact I|].
  destruct (is_zero x); [exact Hs|].
  destruct (is_infinity x); [exact Hs|].
  destruct (Z.frexp x) as [r ex].
  destruct (shr_fexp _ _ _ _ _) as [sr e'].
  destruct (shr_m sr); auto.
Qed.

Lemma Math_round_below (x u : float) (mu : positive) (eu N : Z) :
  Prim2SF u = S754_finite false mu eu ->
  (eu < 0)%Z -> (2 ^ 52 <= Z.pos mu)%Z ->
  (2 * Z.pos mu <= (2 * N + 1) * 2 ^ (- eu))%Z ->
  get_sign x = false -> (x <? u) = true ->
  integer_between 0 N (Math_round x).
Proof.
  intros Eu Heu Hmu HN Hs Hlt.
  rewrite FloatAxioms.ltb_spec, Eu in Hlt. unfold SFltb in Hlt.
  pose proof (Prim2SF_sign x Hs) as Sg.
  pose proof (SF2Prim_Prim2SF x) as Ex.
  unfold Math_round.
  destruct (Prim2SF x) as [s|s| |s m e] eqn:E.
  - subst s. exists 0%Z. split; [|rewrite <- Ex; reflexivity].
    assert (0 < 2 ^ (- eu))%Z by (apply Z.pow_pos_nonneg; lia). nia.
  - subst s. discriminate Hlt.
  - discriminate Hlt.
  - subst s. cbn [SFcompare] in Hlt.
    pose proof (Prim2SF_mantissa x false m e E) as Hm.
    assert (He : (e <= eu)%Z /\ (e = eu -> Z.pos m < Z.pos mu)%Z).
    { destruct (Z.compare_spec e eu) as [Heq| |]; try discriminate Hlt.
      - split; [lia|]. intros _.
        rewrite Pos.compare_cont_spec in Hlt. cbn in Hlt.
        destruct (Pos.compare_spec m mu); try discriminate Hlt. lia.
      - split; lia. }
    destruct He as [He1 He2].
    destruct (Z.leb_spec 0 e); [lia|].
    set (a := (- e)%Z) in *.
    assert (Ha : (0 < a)%Z) by (unfold a; lia).
    rewrite Z.shiftl_1_l, Z.shiftr_div_pow2 by lia.
    set (z := ((2 * Z.pos m + 2 ^ a) / 2 ^ (a + 1))%Z).
    assert (Hz : (0 <= z <= N)%Z).
    { assert (P : (0 < 2 ^ a)%Z) by (apply Z.pow_pos_nonneg; lia).
      assert (P1 : (2 ^ (a + 1) = 2 * 2 ^ a)%Z) by (rewrite Z.pow_add_r, Z.pow_1_r; lia).
      assert (Hk : (2 ^ a = 2 ^ (- eu) * 2 ^ (eu - e))%Z).
      { rewrite <- Z.pow_add_r by lia. f_equal. unfold a. lia. }
      assert (Pk : (0 < 2 ^ (eu - e))%Z) by (apply Z.pow_pos_nonneg; lia).
      assert (Pu : (0 < 2 ^ (- eu))%Z) by (apply Z.pow_pos_nonneg; lia).
      assert (Hmk : (Z.pos m < Z.pos mu * 2 ^ (eu - e))%Z).
      { destruct (Z.eq_dec e eu) as [->|Hne].
        - rewrite Z.sub_diag, Z.pow_0_r. specialize (He2 eq_refl). lia.
        - assert (2 <= 2 ^ (eu - e))%Z.
          { change 2%Z with (2 ^ 1)%Z at 1. apply Z.pow_le_mono_r; lia. }
          change (2 ^ 53)%Z with (2 * 2 ^ 52)%Z in Hm. nia. }
      unfold z. split.
      - apply Z.div_pos; lia.
      - apply Z.lt_succ_r. apply Z.div_lt_upper_bound; [lia|].
        rewrite P1, Hk. nia. }
    clearbody z.
    destruct (Z.eqb_spec z 0) as [->|Hz0].
    + exists 0%Z. split; [lia | reflexivity].
    + exists z. split; [lia | reflexivity].
Qed.

Lemma round_below_360 (x : float) :
  below 360.5 x = true -> integer_between 0 360 (Math_round x).
Proof.
  unfold below. intros H. apply andb_true_iff in H. destruct H as [Hs Hlt].
  apply negb_true_iff in Hs.
  apply (Math_round_below x 360.5 6341983069011968 (-44) 360); try assumption;
    vm_compute; congruence.
Qed.

Lemma round_below_100 (x : float) :
  below 100.5 x = true -> integer_between 0 100 (Math_round x).
Proof.
  unfold below. intros H. apply andb_true_iff in H. destruct H as [Hs Hlt].
  apply negb_true_iff in Hs.
  apply (Math_round_below x 100.5 7072058789855232 (-46) 100); try assumption;
    vm_compute; congruence.
Qed.

(** ** The two digits of a channel *)

Lemma all_ascii_spec (c : ascii) : In c all_ascii.
Proof.
  change all_ascii with (map ascii_of_nat (seq 0 256)).
  rewrite <- (ascii_nat_embedding c).
  apply in_map, in_seq. pose proof (nat_ascii_bounded c). lia.
Qed.

Lemma pair_table : forallb (fun c1 => forallb (pair_ok c1) all_ascii) all_ascii = true.
Proof. vm_compute. reflexivity. Qed.

Lemma parseInt16_pair (c1 c2 : ascii) (z : Z) :
  hex_pair c1 c2 = Some z ->
  parseInt16 (String c1 (String c2 "")) = Number_of_Z z /\ (0 <= z < 256)%Z.
Proof.
  intros Hp.
  pose proof pair_table as T.
  rewrite forallb_forall in T. specialize (T c1 (all_ascii_spec c1)).
  rewrite forallb_forall in T. specialize (T c2 (all_ascii_spec c2)).
  unfold pair_ok in T. rewrite Hp in T.
  apply andb_true_iff in T. destruct T as [T Hhi].
  apply andb_true_iff in T. destruct T as [Heq Hlo].
  apply FloatAxioms.Leibniz.eqb_spec in Heq.
  split; [exact Heq | lia].
Qed.

Lemma hex_pair_digits (c1 c2 : ascii) :
  is_hex_digit c1 = true -> is_hex_digit c2 = true -> exists z, hex_pair c1 c2 = Some z.
Proof.
  unfold is_hex_digit, hex_pair.
  destruct (hex_value c1); [|discriminate].
  destruct (hex_value c2); [|discriminate].
  eauto.
Qed.

(** The shape of a string on which [channel_bytes] is defined. *)
Lemma channel_bytes_shape (hex : string) (r g b : Z) :
  channel_bytes hex = Some (r, g, b) ->
  exists c1 c2 c3 c4 c5 c6,
    hex = String "#" (String c1 (String c2 (String c3 (String c4 (String c5 (String c6 ""))))))
    /\ hex_pair c1 c2 = Some r /\ hex_pair c3 c4 = Some g /\ hex_pair c5 c6 = Some b.
Proof.
  intros H.
  destruct hex as [|c0 hex]; [discriminate H|].
  destruct c0 as [[] [] [] [] [] [] [] []]; try discriminate H.
  destruct hex as [|c1 hex]; [discriminate H|].
  destruct hex as [|c2 hex]; [discriminate H|].
  destruct hex as [|c3 hex]; [discriminate H|].
  destruct hex as [|c4 hex]; [discriminate H|].
  destruct hex as [|c5 hex]; [discriminate H|].
  destruct hex as [|c6 hex]; [discriminate H|].
  destruct hex as [|c7 hex]; [|discriminate H].
  cbn [channel_bytes] in H.
  destruct (hex_pair c1 c2) as [r'|] eqn:Hr; [|discriminate H].
  destruct (hex_pair c3 c4) as [g'|] eqn:Hg; [|discriminate H].
  destruct (hex_pair c5 c6) as [b'|] eqn:Hb; [|discriminate H].
  injection H as <- <- <-.
  exists c1, c2, c3, c4, c5, c6. auto.
Qed.

Lemma valid_color_bytes (hex : string) :
  valid_color hex = true -> exists r g b, channel_bytes hex = Some (r, g, b).
Proof.
  intros H.
  destruct hex as [|c0 hex]; [discriminate H|].
  destruct c0 as [[] [] [] [] [] [] [] []]; try discriminate H.
  destruct hex as [|c1 hex]; [discriminate H|].
  destruct hex as [|c2 hex]; [discriminate H|].
  destruct hex as [|c3 hex]; [discriminate H|].
  destruct hex as [|c4 hex]; [discriminate H|].
  destruct hex as [|c5 hex]; [discriminate H|].
  destruct hex as [|c6 hex]; [discriminate H|].
  destruct hex as [|c7 hex]; [|discriminate H].
  cbn [valid_color forallb] in H.
  repeat (apply andb_true_iff in H; destruct H as [? H]).
  destruct (hex_pair_digits c1 c2) as [r Hr]; trivial.
  destruct (hex_pair_digits c3 c4) as [g Hg]; trivial.
  destruct (hex_pair_digits c5 c6) as [b Hb]; trivial.
  exists r, g, b. cbn [channel_bytes]. now rewrite Hr, Hg, Hb.
Qed.

Lemma channel_bytes_range (hex : string) (r g b : Z) :
  channel_bytes hex = Some (r, g, b) ->
  (0 <= r < 256)%Z /\ (0 <= g < 256)%Z /\ (0 <= b < 256)%Z.
Proof.
  intros H. apply channel_bytes_shape in H.
  destruct H as (c1 & c2 & c3 & c4 & c5 & c6 & _ & Hr & Hg & Hb).
  apply parseInt16_pair in Hr, Hg, Hb. tauto.
Qed.

Lemma hexToHSL_bytes (hex : string) (r g b : Z) :
  channel_bytes hex = Some (r, g, b) ->
  hexToHSL hex = hslOfChannels (channel r) (channel g) (channel b).
Proof.
  intros H. apply channel_bytes_shape in H.
  destruct H as (c1 & c2 & c3 & c4 & c5 & c6 & -> & Hr & Hg & Hb).
  rewrite hexToHSL_channels. unfold slice. cbn [substring Nat.sub].
  apply parseInt16_pair in Hr, Hg, Hb.
  destruct Hr as [-> _], Hg as [-> _], Hb as [-> _].
  reflexivity.
Qed.

(** ** The HSL triple of three channel bytes *)

Lemma indexed_channels_spec (z : Z) :
  (0 <= z < 256)%Z -> In (z, channel z) indexed_channels.
Proof.
  intros Hz.
  change indexed_channels with (map (fun z => (z, channel z)) byte_values).
  now apply (in_map (fun z => (z, channel z))), byte_values_spec.
Qed.

Lemma extrema_table :
  forallb (fun x => forallb (extrema_ok x) indexed_channels) indexed_channels = true.
Proof. vm_compute. reflexivity. Qed.

Lemma channel_extrema (x y : Z) :
  (0 <= x < 256)%Z -> (0 <= y < 256)%Z ->
  Math_max2 (channel x) (channel y) = channel (Z.max x y) /\
  Math_min2 (channel x) (channel y) = channel (Z.min x y).
Proof.
  intros Hx Hy.
  pose proof extrema_table as T.
  rewrite forallb_forall in T. specialize (T _ (indexed_channels_spec x Hx)).
  rewrite forallb_forall in T. specialize (T _ (indexed_channels_spec y Hy)).
  unfold extrema_ok in T. cbn [fst snd] in T.
  apply andb_true_iff in T. destruct T as [Hmax Hmin].
  apply FloatAxioms.Leibniz.eqb_spec in Hmax, Hmin.
  rewrite Hmax, Hmin.
  destruct (Z.ltb_spec x y).
  - rewrite Z.max_r, Z.min_l by lia. auto.
  - rewrite Z.max_l, Z.min_r by lia. auto.
Qed.

Lemma hslOfChannels_raw (r g b : float) :
  hslOfChannels r g b =
  (Math_round (fst (fst (hslRaw r g b))), Math_round (snd (fst (hslRaw r g b))),
   Math_round (snd (hslRaw r g b))).
Proof.
  unfold hslOfChannels, hslRaw.
  destruct (Math_max3 r g b =? Math_min3 r g b); reflexivity.
Qed.

Lemma hslRaw_sat_light (r g b : float) :
  (snd (fst (hslRaw r g b)), snd (hslRaw r g b)) =
  sat_light (Math_max3 r g b) (Math_min3 r g b).
Proof.
  unfold hslRaw, sat_light.
  destruct (Math_max3 r g b =? Math_min3 r g b); reflexivity.
Qed.

Lemma sat_light_table :
  forallb (fun x => forallb (sat_light_ok x) indexed_channels) indexed_channels = true.
Proof. vm_compute. reflexivity. Qed.

Lemma sat_light_range (hi lo : Z) :
  (0 <= lo <= hi)%Z -> (hi < 256)%Z ->
  integer_between 0 100 (Math_round (fst (sat_light (channel hi) (channel lo)))) /\
  integer_between 0 100 (Math_round (snd (sat_light (channel hi) (channel lo)))).
Proof.
  intros Hlo Hhi.
  pose proof sat_light_table as T.
  rewrite forallb_forall in T. specialize (T _ (indexed_channels_spec hi ltac:(lia))).
  rewrite forallb_forall in T. specialize (T _ (indexed_channels_spec lo ltac:(lia))).
  unfold sat_light_ok in T. cbn [fst snd] in T.
  destruct (Z.leb_spec lo hi); [|lia].
  apply andb_true_iff in T. destruct T as [Hs Hl].
  split; [exact (round_below_100 _ Hs) | exact (round_below_100 _ Hl)].
Qed.

Lemma channel_order_table :
  forallb (fun x => forallb (channel_order_ok x) indexed_channels) indexed_channels = true.
Proof. vm_compute. reflexivity. Qed.

Lemma channel_order (x y : Z) :
  (0 <= x < 256)%Z -> (0 <= y < 256)%Z ->
  (channel x <? channel y) = (x <? y)%Z
  /\ (channel x <=? channel y) = (x <=? y)%Z
  /\ (channel x =? channel y) = (x =? y)%Z.
Proof.
  intros Hx Hy.
  pose proof channel_order_table as T.
  rewrite forallb_forall in T. specialize (T _ (indexed_channels_spec x Hx)).
  rewrite forallb_forall in T. specialize (T _ (indexed_channels_spec y Hy)).
  unfold channel_order_ok in T. cbn [fst snd] in T.
  apply andb_true_iff in T. destruct T as [T He].
  apply andb_true_iff in T. destruct T as [Hlt Hle].
  apply Bool.eqb_prop in Hlt, Hle, He. auto.
Qed.

(** The hue before rounding, over the largest channel and the two others. *)
Lemma hue_table :
  forallb (fun hi => forallb (fun x => forallb (hue_sectors_ok hi x) channel_table)
                             channel_table)
          channel_table = true.
Proof. vm_compute. reflexivity. Qed.

Lemma hue_sectors (hi x y : Z) :
  (0 <= x <= hi)%Z -> (0 <= y <= hi)%Z -> (hi < 256)%Z -> (Z.min x y < hi)%Z ->
  let d := channel hi - channel (Z.min x y) in
  below 360.5 (hue_sector (if channel x <? channel y then 6 else 0) (channel x) (channel y) d)
  = true
  /\ below 360.5 (hue_sector 2 (channel x) (channel y) d) = true
  /\ below 360.5 (hue_sector 4 (channel x) (channel y) d) = true.
Proof.
  intros Hx Hy Hhi Hmin d.
  pose proof hue_table as T.
  rewrite forallb_forall in T. specialize (T _ (channel_table_spec hi ltac:(lia))).
  rewrite forallb_forall in T. specialize (T _ (channel_table_spec x ltac:(lia))).
  rewrite forallb_forall in T. specialize (T _ (channel_table_spec y ltac:(lia))).
  unfold hue_sectors_ok in T.
  destruct (channel_order x hi ltac:(lia) ltac:(lia)) as (_ & Lx & _).
  destruct (channel_order y hi ltac:(lia) ltac:(lia)) as (_ & Ly & _).
  destruct (channel_order x y ltac:(lia) ltac:(lia)) as (Lxy & _ & _).
  rewrite Lx, Ly in T.
  replace (x <=? hi)%Z with true in T by (symmetry; apply Z.leb_le; lia).
  replace (y <=? hi)%Z with true in T by (symmetry; apply Z.leb_le; lia).
  cbn [andb] in T.
  assert (Elo : (if channel x <? channel y then channel x else channel y)
                = channel (Z.min x y)).
  { rewrite Lxy. destruct (Z.ltb_spec x y).
    - now rewrite Z.min_l by lia.
    - now rewrite Z.min_r by lia. }
  rewrite Elo in T.
  destruct (channel_order hi (Z.min x y) ltac:(lia) ltac:(lia)) as (_ & _ & Le).
  rewrite Le in T.
  replace (hi =? Z.min x y)%Z with false in T by (symmetry; apply Z.eqb_neq; lia).
  fold d in T.
  apply andb_true_iff in T. destruct T as [T T4].
  apply andb_true_iff in T. destruct T as [T0 T2].
  auto.
Qed.

Lemma hue_range (r g b : Z) :
  (0 <= r < 256)%Z -> (0 <= g < 256)%Z -> (0 <= b < 256)%Z ->
  integer_between 0 360
    (Math_round (fst (fst (hslRaw (channel r) (channel g) (channel b))))).
Proof.
  intros Hr Hg Hb.
  apply round_below_360.
  unfold hslRaw, Math_max3, Math_min3.
  destruct (channel_extrema r g Hr Hg) as [Emax Emin]. rewrite Emax, Emin.
  destruct (channel_extrema (Z.max r g) b ltac:(lia) Hb) as [Emax' _].
  destruct (channel_extrema (Z.min r g) b ltac:(lia) Hb) as [_ Emin'].
  rewrite Emax', Emin'.
  set (hi := Z.max (Z.max r g) b). set (lo := Z.min (Z.min r g) b).
  destruct (channel_order hi lo ltac:(lia) ltac:(lia)) as (_ & _ & Ehl).
  destruct (channel_order hi r ltac:(lia) ltac:(lia)) as (_ & _ & Er).
  destruct (channel_order hi g ltac:(lia) ltac:(lia)) as (_ & _ & Eg).
  destruct (channel_order hi b ltac:(lia) ltac:(lia)) as (_ & _ & Eb).
  rewrite Ehl, Er, Eg, Eb.
  destruct (Z.eqb_spec hi lo) as [Hhl|Hhl]; [vm_compute; reflexivity|].
  cbn [fst].
  destruct (Z.eqb_spec hi r) as [Hir|Hir].
  { replace lo with (Z.min g b) by lia.
    destruct (hue_sectors hi g b ltac:(lia) ltac:(lia) ltac:(lia) ltac:(lia)) as (H & _ & _).
    exact H. }
  destruct (Z.eqb_spec hi g) as [Hig|Hig].
  { replace lo with (Z.min b r) by lia.
    destruct (hue_sectors hi b r ltac:(lia) ltac:(lia) ltac:(lia) ltac:(lia)) as (_ & H & _).
    exact H. }
  destruct (Z.eqb_spec hi b) as [Hib|Hib].
  { replace lo with (Z.min r g) by lia.
    destruct (hue_sectors hi r g ltac:(lia) ltac:(lia) ltac:(lia) ltac:(lia)) as (_ & _ & H).
    exact H. }
  lia.
Qed.

(** The rounded triple of every color: three integers, the hue from 0 to 360
    and the two percentages from 0 to 100. *)
Lemma hslOfChannels_range (r g b : Z) :
  (0 <= r < 256)%Z -> (0 <= g < 256)%Z -> (0 <= b < 256)%Z ->
  exists h s l : Z,
    hslOfChannels (channel r) (channel g) (channel b)
      = (Number_of_Z h, Number_of_Z s, Number_of_Z l)
    /\ (0 <= h <= 360)%Z /\ (0 <= s <= 100)%Z /\ (0 <= l <= 100)%Z.
Proof.
  intros Hr Hg Hb.
  destruct (hue_range r g b Hr Hg Hb) as (h & Hh & Eh).
  pose proof (hslRaw_sat_light (channel r) (channel g) (channel b)) as E.
  unfold Math_max3, Math_min3 in E.
  destruct (channel_extrema r g Hr Hg) as [Emax Emin]. rewrite Emax, Emin in E.
  destruct (channel_extrema (Z.max r g) b ltac:(lia) Hb) as [Emax' Emin'].
  destruct (channel_extrema (Z.min r g) b ltac:(lia) Hb) as [Emax'' Emin''].
  rewrite Emax', Emin'' in E.
  destruct (sat_light_range (Z.max (Z.max r g) b) (Z.min (Z.min r g) b)
              ltac:(lia) ltac:(lia)) as [(s & Hs & Es) (l & Hl & El)].
  rewrite <- E in Es, El. cbn [fst snd] in Es, El.
  exists h, s, l. rewrite hslOfChannels_raw, Eh, Es, El.
  repeat split; lia.
Qed.

Lemma hexToHSL_range (hex : string) :
  valid_color hex = true ->
  exists h s l : Z,
    hexToHSL hex = (Number_of_Z h, Number_of_Z s, Number_of_Z l)
    /\ (0 <= h <= 360)%Z /\ (0 <= s <= 100)%Z /\ (0 <= l <= 100)%Z.
Proof.
  intros Hv.
  destruct (valid_color_bytes hex Hv) as (r & g & b & Hb).
  rewrite (hexToHSL_bytes hex r g b Hb).
  destruct (channel_bytes_range hex r g b Hb) as (? & ? & ?).
  now apply hslOfChannels_range.
Qed.

(** ** The arguments of the five tones *)

Lemma range_spec (lo n : nat) (z : Z) :
  (Z.of_nat lo <= z < Z.of_nat (lo + n))%Z -> In z (range lo n).
Proof.
  intros Hz. unfold range.
  replace z with (Z.of_nat (Z.to_nat z)) by lia.
  apply in_map, in_seq. lia.
Qed.

Lemma clamps_table : forallb clamps_ok (range 0 101) = true.
Proof. vm_compute. reflexivity. Qed.

Lemma clamps (z : Z) :
  (0 <= z <= 100)%Z ->
  let x := Number_of_Z z in
  Math_max2 (x - 5) 0 = Number_of_Z (Z.max (z - 5) 0)
  /\ Math_min2 (x + 22) 92 = Number_of_Z (Z.min (z + 22) 92)
  /\ Math_min2 (x + 5) 100 = Number_of_Z (Z.min (z + 5) 100)
  /\ Math_max2 (x - 22) 8 = Number_of_Z (Z.max (z - 22) 8)
  /\ Math_min2 (x + 10) 100 = Number_of_Z (Z.min (z + 10) 100)
  /\ Math_max2 (x - 38) 4 = Number_of_Z (Z.max (z - 38) 4)
  /\ Math_max2 (x - 15) 0 = Number_of_Z (Z.max (z - 15) 0)
  /\ Math_min2 (x + 38) 96 = Number_of_Z (Z.min (z + 38) 96).
Proof.
  intros Hz x.
  pose proof clamps_table as T.
  rewrite forallb_forall in T. specialize (T z (range_spec 0 101 z ltac:(lia))).
  unfold clamps_ok in T. fold x in T.
  repeat (apply andb_true_iff in T; destruct T as [T ?]).
  repeat match goal with
         | H : Leibniz.eqb _ _ = true |- _ => apply FloatAxioms.Leibniz.eqb_spec in H
         end.
  repeat split; assumption.
Qed.

Lemma order_table :
  forallb (fun x => forallb (order_ok x) (range 0 101)) (range 0 101) = true.
Proof. vm_compute. reflexivity. Qed.

Lemma Number_le (x y : Z) :
  (0 <= x <= 100)%Z -> (0 <= y <= 100)%Z ->
  (Number_of_Z x <=? Number_of_Z y) = (x <=? y)%Z.
Proof.
  intros Hx Hy.
  pose proof order_table as T.
  rewrite forallb_forall in T. specialize (T x (range_spec 0 101 x ltac:(lia))).
  rewrite forallb_forall in T. specialize (T y (range_spec 0 101 y ltac:(lia))).
  now apply Bool.eqb_prop in T.
Qed.

Lemma toneVariants_args (hex : string) : toneVariants hex = tones_of_args (toneArgs hex).
Proof.
  unfold toneVariants, toneArgs, toneArgsOf, tones_of_args.
  destruct (hexToHSL hex) as [[h s] l]. reflexivity.
Qed.

(** The triples of the five tones, in integers. *)
Lemma toneArgs_integers (hex : string) :
  valid_color hex = true ->
  exists h s l : Z,
    ((0 <= h <= 360)%Z /\ (0 <= s <= 100)%Z /\ (0 <= l <= 100)%Z)
    /\ hexToHSL hex = (Number_of_Z h, Number_of_Z s, Number_of_Z l)
    /\ toneArgs hex =
       {| base_hsl := (Number_of_Z h, Number_of_Z s, Number_of_Z l);
          light_hsl := (Number_of_Z h, Number_of_Z (Z.max (s - 5) 0),
                        Number_of_Z (Z.min (l + 22) 92));
          dark_hsl := (Number_of_Z h, Number_of_Z (Z.min (s + 5) 100),
                       Number_of_Z (Z.max (l - 22) 8));
          vdark_hsl := (Number_of_Z h, Number_of_Z (Z.min (s + 10) 100),
                        Number_of_Z (Z.max (l - 38) 4));
          shine_hsl := (Number_of_Z h, Number_of_Z (Z.max (s - 15) 0),
                        Number_of_Z (Z.min (l + 38) 96)) |}.
Proof.
  intros Hv.
  destruct (hexToHSL_range hex Hv) as (h & s & l & E & Hh & Hs & Hl).
  exists h, s, l. split; [auto|]. split; [exact E|].
  unfold toneArgs, toneArgsOf. rewrite E.
  destruct (clamps s Hs) as (S1 & _ & S2 & _ & S3 & _ & S4 & _).
  destruct (clamps l Hl) as (_ & L1 & _ & L2 & _ & L3 & _ & L4).
  cbv zeta in S1, S2, S3, S4, L1, L2, L3, L4.
  now rewrite S1, S2, S3, S4, L1, L2, L3, L4.
Qed.

(** ** C1: the ordering of the palette *)

(** C1 as stated fails: the lightness of white is 100, and its light tone is
    built with the ceiling 92. *)
Lemma palette_ordering_fails_for_white :
  valid_color "#ffffff" = true /\ ~ palette_ordered (toneArgs "#ffffff").
Proof.
  split; [reflexivity|].
  unfold palette_ordered, le. vm_compute. intuition discriminate.
Qed.

(** C1, amended: for a valid color whose rounded lightness lies between 8 and
    92 the five tones are built in the order
    vdark <= dark <= base <= light <= shine. *)
Theorem palette_ordering (hex : string) :
  valid_color hex = true ->
  le 8 (lightness (base_hsl (toneArgs hex))) ->
  le (lightness (base_hsl (toneArgs hex))) 92 ->
  palette_ordered (toneArgs hex).
Proof.
  intros Hv.
  destruct (toneArgs_integers hex Hv) as (h & s & l & (Hh & Hs & Hl) & _ & ->).
  unfold palette_ordered, le, lightness. cbn [base_hsl light_hsl dark_hsl vdark_hsl shine_hsl snd].
  change 8 with (Number_of_Z 8). change 92 with (Number_of_Z 92).
  rewrite !Number_le by lia.
  rewrite !Z.leb_le. lia.
Qed.

Lemma palette_ordering_witness :
  palette_ordered (toneArgs "#c0922a").
Proof.
  apply (palette_ordering "#c0922a"); reflexivity.
Defined.

(** The two ends of the ordering need no condition. *)
Lemma palette_ends_ordered (hex : string) :
  valid_color hex = true ->
  le (lightness (vdark_hsl (toneArgs hex))) (lightness (dark_hsl (toneArgs hex)))
  /\ le (lightness (light_hsl (toneArgs hex))) (lightness (shine_hsl (toneArgs hex))).
Proof.
  intros Hv.
  destruct (toneArgs_integers hex Hv) as (h & s & l & (Hh & Hs & Hl) & _ & ->).
  unfold le, lightness. cbn [base_hsl light_hsl dark_hsl vdark_hsl shine_hsl snd].
  rewrite !Number_le by lia.
  rewrite !Z.leb_le. lia.
Qed.

(** ** C3: the range of the rounded triple *)

Lemma Number_below_360_table :
  forallb (fun z => Number_of_Z z <? 360) (range 0 360) = true.
Proof. vm_compute. reflexivity. Qed.

Lemma hue_360_not_below (z : Z) : (0 <= z <= 359)%Z -> Number_of_Z z <> 360.
Proof.
  intros Hz E.
  pose proof Number_below_360_table as T.
  rewrite forallb_forall in T. specialize (T z (range_spec 0 360 z ltac:(lia))).
  rewrite E in T. discriminate T.
Qed.

(** C3 as stated fails: the hue of "#ff0001" is 359.76 before rounding and
    rounds to 360, outside [0, 360). *)
Lemma hue_reaches_360 :
  valid_color "#ff0001" = true
  /\ hexToHSL "#ff0001" = (360, 100, 50)
  /\ ~ hsl_within 359 (hexToHSL "#ff0001").
Proof.
  split; [reflexivity|].
  assert (E : hexToHSL "#ff0001" = (360, 100, 50)) by (vm_compute; reflexivity).
  split; [exact E|].
  rewrite E. intros [(z & Hz & Ez) _]. cbn [fst snd] in Ez.
  exact (hue_360_not_below z Hz (eq_sym Ez)).
Qed.

(** C3, amended: for a valid color hexToHSL returns three integers, the hue
    in the closed range [0, 360] and saturation and lightness in [0, 100]. *)
Theorem hexToHSL_rounded_range (hex : string) :
  valid_color hex = true -> hsl_within 360 (hexToHSL hex).
Proof.
  intros Hv.
  destruct (hexToHSL_range hex Hv) as (h & s & l & -> & Hh & Hs & Hl).
  repeat split; cbn [fst snd]; eexists; split; try reflexivity; lia.
Qed.

Lemma hexToHSL_rounded_range_witness : hsl_within 360 (hexToHSL "#c0922a").
Proof.
  apply (hexToHSL_rounded_range "#c0922a"). reflexivity.
Defined.

(** ** C4: how the tones are derived *)

(** C4: with (h, s, l) the rounded triple of a valid color, the five tones
    are hslToHex of (h, s, l) itself and of the four offset and clamped
    triples. *)
Theorem toneVariants_derivation (hex : string) :
  valid_color hex = true ->
  exists h s l : Z,
    hexToHSL hex = (Number_of_Z h, Number_of_Z s, Number_of_Z l)
    /\ toneVariants hex =
       {| base  := hslToHex (Number_of_Z h) (Number_of_Z s) (Number_of_Z l);
          light := hslToHex (Number_of_Z h) (Number_of_Z (Z.max (s - 5) 0))
                            (Number_of_Z (Z.min (l + 22) 92));
          dark  := hslToHex (Number_of_Z h) (Number_of_Z (Z.min (s + 5) 100))
                            (Number_of_Z (Z.max (l - 22) 8));
          vdark := hslToHex (Number_of_Z h) (Number_of_Z (Z.min (s + 10) 100))
                            (Number_of_Z (Z.max (l - 38) 4));
          shine := hslToHex (Number_of_Z h) (Number_of_Z (Z.max (s - 15) 0))
                            (Number_of_Z (Z.min (l + 38) 96)) |}.
Proof.
  intros Hv.
  destruct (toneArgs_integers hex Hv) as (h & s & l & _ & E & Ea).
  exists h, s, l. split; [exact E|].
  rewrite toneVariants_args, Ea. reflexivity.
Qed.

Lemma toneVariants_derivation_witness :
  exists h s l : Z,
    hexToHSL "#c0922a" = (Number_of_Z h, Number_of_Z s, Number_of_Z l)
    /\ toneVariants "#c0922a" =
       {| base  := hslToHex (Number_of_Z h) (Number_of_Z s) (Number_of_Z l);
          light := hslToHex (Number_of_Z h) (Number_of_Z (Z.max (s - 5) 0))
                            (Number_of_Z (Z.min (l + 22) 92));
          dark  := hslToHex (Number_of_Z h) (Number_of_Z (Z.min (s + 5) 100))
                            (Number_of_Z (Z.max (l - 22) 8));
          vdark := hslToHex (Number_of_Z h) (Number_of_Z (Z.min (s + 10) 100))
                            (Number_of_Z (Z.max (l - 38) 4));
          shine := hslToHex (Number_of_Z h) (Number_of_Z (Z.max (s - 15) 0))
                            (Number_of_Z (Z.min (l + 38) 96)) |}.
Proof.
  apply (toneVariants_derivation "#c0922a"). reflexivity.
Defined.

(** ** C9: achromatic colors *)

Lemma grey_table : forallb grey_ok channel_table = true.
Proof. vm_compute. reflexivity. Qed.

(** C9: on a valid color hexToHSL yields three integers (never NaN or an
    undefined hue); when the three channels are equal the hue and the
    saturation are 0 and toneVariants returns five well-formed colors. *)
Theorem tone_derivation_total (hex : string) :
  valid_color hex = true ->
  hsl_within 360 (hexToHSL hex)
  /\ (forall v : Z, channel_bytes hex = Some (v, v, v) ->
        fst (fst (hexToHSL hex)) = 0 /\ snd (fst (hexToHSL hex)) = 0
        /\ tones_valid (toneVariants hex) = true).
Proof.
  intros Hv. split.
  - destruct (hexToHSL_range hex Hv) as (h & s & l & -> & Hh & Hs & Hl).
    repeat split; cbn [fst snd]; eexists; split; try reflexivity; lia.
  - intros v Hb.
    destruct (channel_bytes_range hex v v v Hb) as (Hr & _ & _).
    rewrite toneVariants_args. unfold toneArgs.
    rewrite (hexToHSL_bytes hex v v v Hb).
    pose proof grey_table as T.
    rewrite forallb_forall in T. specialize (T _ (channel_table_spec v Hr)).
    unfold grey_ok in T. cbv zeta in T.
    apply andb_true_iff in T. destruct T as [T Ht].
    apply andb_true_iff in T. destruct T as [Eh Es].
    apply FloatAxioms.Leibniz.eqb_spec in Eh, Es. auto.
Qed.

Lemma tone_derivation_total_witness :
  hsl_within 360 (hexToHSL "#808080")
  /\ (forall v : Z, channel_bytes "#808080" = Some (v, v, v) ->
        fst (fst (hexToHSL "#808080")) = 0 /\ snd (fst (hexToHSL "#808080")) = 0
        /\ tones_valid (toneVariants "#808080") = true).
Proof.
  apply (tone_derivation_total "#808080"). reflexivity.
Defined.

(** ** C10: the case of the hexadecimal digits *)

Lemma hex_value_fold (c : ascii) : hex_value (fold_case c) = hex_value c.
Proof. destruct c as [[] [] [] [] [] [] [] []]; reflexivity. Qed.

Lemma is_white_space_fold (c : ascii) : is_white_space (fold_case c) = is_white_space c.
Proof. destruct c as [[] [] [] [] [] [] [] []]; reflexivity. Qed.

Lemma trim_start_fold (s : string) :
  trim_start (fold_hex_case s) = fold_hex_case (trim_start s).
Proof.
  induction s as [|c s IH]; [reflexivity|].
  cbn [fold_hex_case trim_start]. rewrite is_white_space_fold.
  destruct (is_white_space c); [exact IH | reflexivity].
Qed.

Lemma strip_sign_fold (s : string) :
  strip_sign (fold_hex_case s) =
  (fst (strip_sign s), fold_hex_case (snd (strip_sign s))).
Proof.
  destruct s as [|c s]; [reflexivity|].
  destruct c as [[] [] [] [] [] [] [] []]; reflexivity.
Qed.

Lemma strip_0x_fold (s : string) :
  strip_0x (fold_hex_case s) = fold_hex_case (strip_0x s).
Proof.
  destruct s as [|c s]; [reflexivity|].
  destruct s as [|c' s];
    [destruct c as [[] [] [] [] [] [] [] []]; reflexivity|].
  destruct c as [[] [] [] [] [] [] [] []]; try reflexivity;
    destruct c' as [[] [] [] [] [] [] [] []]; reflexivity.
Qed.

Lemma hex_prefix_fold (s : string) (acc : option Z) :
  hex_prefix acc (fold_hex_case s) = hex_prefix acc s.
Proof.
  revert acc. induction s as [|c s IH]; intros acc; [reflexivity|].
  cbn [fold_hex_case hex_prefix]. rewrite hex_value_fold.
  destruct (hex_value c); [apply IH | reflexivity].
Qed.

Lemma parseInt16_fold (s : string) : parseInt16 (fold_hex_case s) = parseInt16 s.
Proof.
  unfold parseInt16.
  rewrite trim_start_fold, strip_sign_fold.
  destruct (strip_sign (trim_start s)) as [neg s']. cbn [fst snd].
  now rewrite strip_0x_fold, hex_prefix_fold.
Qed.

Lemma substring_fold (n m : nat) (s : string) :
  substring n m (fold_hex_case s) = fold_hex_case (substring n m s).
Proof.
  revert n m. induction s as [|c s IH]; intros n m.
  - destruct n, m; reflexivity.
  - destruct n as [|n]; cbn [fold_hex_case substring].
    + destruct m as [|m]; [reflexivity|]. cbn [fold_hex_case]. now rewrite IH.
    + apply IH.
Qed.

Lemma hexToHSL_fold (hex : string) : hexToHSL (fold_hex_case hex) = hexToHSL hex.
Proof.
  rewrite !hexToHSL_channels. unfold slice.
  now rewrite !substring_fold, !parseInt16_fold.
Qed.

Lemma toneVariants_fold (hex : string) :
  toneVariants (fold_hex_case hex) = toneVariants hex.
Proof. unfold toneVariants. now rewrite hexToHSL_fold. Qed.

(** C10: two accent colors that differ only in the case of their digits give
    the same palette, and each of the six generators returns the same text
    for both. *)
Theorem accent_case_insensitive (host : Host) (hex1 hex2 : string) :
  same_up_to_case hex1 hex2 ->
  toneVariants hex1 = toneVariants hex2
  /\ Forall (fun frame => fn frame hex1 = fn frame hex2) (FRAMES host).
Proof.
  intros H.
  assert (E : toneVariants hex1 = toneVariants hex2).
  { rewrite <- (toneVariants_fold hex1), <- (toneVariants_fold hex2).
    unfold same_up_to_case in H. now rewrite H. }
  split; [exact E|].
  unfold FRAMES.
  repeat constructor; cbn [fn];
    unfold frameSimpleRing, frameDoubleRing, frameRopeTwist, frameOrnateFantasy,
      frameRivetedMetal, frameGemBorder; now rewrite E.
Qed.

Lemma accent_case_insensitive_witness :
  toneVariants "#C0922A" = toneVariants "#c0922a"
  /\ Forall (fun frame => fn frame "#C0922A" = fn frame "#c0922a") (FRAMES plain_host).
Proof.
  apply (accent_case_insensitive plain_host "#C0922A" "#c0922a"). reflexivity.
Defined.

(** ** Reading a scene back *)

Lemma for_loop_spec (n i : nat) (body : nat -> list node) (acc : list node) :
  for_loop n i body acc = (acc ++ flat_map body (seq i n))%list.
Proof.
  revert i acc. induction n as [|n IH]; intros i acc; cbn [for_loop seq flat_map].
  - now rewrite app_nil_r.
  - rewrite IH. now rewrite <- app_assoc.
Qed.

Lemma append_assoc (a b c : string) : (a ++ b) ++ c = a ++ (b ++ c).
Proof. induction a as [|x a IH]; [reflexivity|]. cbn. now rewrite IH. Qed.

Lemma print_app (xs ys : list node) : print (xs ++ ys)%list = print xs ++ print ys.
Proof.
  unfold print. induction xs as [|x xs IH]; [reflexivity|].
  cbn [fold_right app]. now rewrite IH, append_assoc.
Qed.

(** The text svgWrap returns is the text of the document around the scene. *)
Lemma svgWrap_document (scene : list node) : svgWrap (print scene) = print (document scene).
Proof.
  unfold svgWrap, document. rewrite !print_app. reflexivity.
Qed.

(** ** C7: the Double Ring *)

Lemma doubleRing_discs (t : Tones) :
  discs (doubleRing t) =
  [ ("252", vdark t); ("248", base t); ("243", vdark t); ("240", dark t);
    ("238", vdark t); ("235", light t); ("232", vdark t) ].
Proof. reflexivity. Qed.

(** C7 as stated fails: the circle of the gap, at radius 240, is filled with
    the dark tone, which for the accent "#c0922a" is none of vdark, base and
    light. *)
Lemma double_ring_gap_is_dark :
  ~ Forall (fun d => In (snd d) [vdark (toneVariants "#c0922a");
                                 base (toneVariants "#c0922a");
                                 light (toneVariants "#c0922a")])
           (discs (doubleRing (toneVariants "#c0922a"))).
Proof.
  rewrite doubleRing_discs. intros H.
  do 3 (apply Forall_inv_tail in H). apply Forall_inv in H.
  vm_compute in H.
  destruct H as [H|[H|[H|[]]]]; discriminate H.
Qed.

Lemma covers_disc (r : Z) (p : point) :
  covers (Disc 256 256 r) p = Qle_bool (distance2 p) (inject_Z (r * r)).
Proof. reflexivity. Qed.

Lemma covers_outer (outer r : Z) (p : point) :
  (distance2 p <= inject_Z (outer * outer))%Q -> (0 <= outer <= r)%Z ->
  covers (Disc 256 256 r) p = true.
Proof.
  intros H Hr. rewrite covers_disc. apply Qle_bool_iff.
  eapply Qle_trans; [exact H|]. rewrite <- Zle_Qle. nia.
Qed.

Lemma covers_inner (inner r : Z) (p : point) :
  (inject_Z (inner * inner) < distance2 p)%Q -> (0 <= r <= inner)%Z ->
  covers (Disc 256 256 r) p = false.
Proof.
  intros H Hr. rewrite covers_disc. apply not_true_is_false. intros C.
  apply Qle_bool_iff in C. apply (Qlt_not_le _ _ H).
  eapply Qle_trans; [exact C|]. rewrite <- Zle_Qle. nia.
Qed.

Lemma square_bound (a b c : Q) :
  (0 <= c)%Q -> (a * a + b * b <= c * c)%Q -> (- c <= a /\ a <= c)%Q.
Proof.
  intros Hc H.
  assert (Hb : (0 <= b * b)%Q) by nra.
  split.
  - destruct (Qlt_le_dec a (- c)) as [Hlt|Hle]; [|exact Hle].
    exfalso. assert (Hs : (c * c < a * a)%Q) by nra. nra.
  - destruct (Qlt_le_dec c a) as [Hlt|Hle]; [|exact Hle].
    exfalso. assert (Hs : (c * c < a * a)%Q) by nra. nra.
Qed.

Lemma band_on_canvas (r : Z) (p : point) :
  (distance2 p <= inject_Z (r * r))%Q -> (0 <= r <= 256)%Z ->
  covers (Rect 512 512) p = true.
Proof.
  intros H Hr.
  assert (Hq : (inject_Z (r * r) <= 256 * 256)%Q).
  { change (256 * 256)%Q with (inject_Z (256 * 256)). rewrite <- Zle_Qle. nia. }
  unfold distance2 in H.
  assert (Hx : ((fst p - 256) * (fst p - 256) + (snd p - 256) * (snd p - 256) <= 256 * 256)%Q)
    by (eapply Qle_trans; [exact H | exact Hq]).
  assert (Hy : ((snd p - 256) * (snd p - 256) + (fst p - 256) * (fst p - 256) <= 256 * 256)%Q)
    by (rewrite Qplus_comm; exact Hx).
  apply square_bound in Hx; [|discriminate]. apply square_bound in Hy; [|discriminate].
  unfold covers. change (inject_Z 512) with 512%Q.
  rewrite !andb_true_iff. repeat split; apply Qle_bool_iff; lra.
Qed.

Lemma mask_open_in_band (outer inner : Z) (p : point) :
  in_band outer inner p -> (232 <= inner)%Z -> (0 <= outer <= 256)%Z ->
  (mask_value mask_fm p == 1)%Q.
Proof.
  intros [Hi Ho] H1 H2. unfold mask_value, mask_fm. cbn [fold_left outline paint].
  rewrite (band_on_canvas outer p Ho H2).
  rewrite (covers_inner inner 232 p Hi ltac:(lia)). reflexivity.
Qed.

Lemma over_opaque (top below : Q) : (below == 1)%Q -> (over top below == 1)%Q.
Proof. intros H. unfold over. rewrite H. ring. Qed.

Lemma alpha_stays_opaque
    (element_alpha : node -> point -> Q) (shapes : list painted) (p : point)
    (ls : list leaf) (below : Q) :
  (below == 1)%Q ->
  (fold_left
     (fun below l =>
        over (element_alpha (leaf_node l) p
              * (if masked_by "fm" l then mask_value shapes p else 1))%Q below)
     ls below == 1)%Q.
Proof.
  revert below. induction ls as [|l ls IH]; intros below Hb; [exact Hb|].
  cbn [fold_left]. apply IH. now apply over_opaque.
Qed.

Lemma doubleRing_elements (t : Tones) :
  elements (doubleRing t) =
  map (fun d => Tag "circle" [("cx", "256"); ("cy", "256"); ("r", fst d); ("fill", snd d)] " />")
      [ ("252", vdark t); ("248", base t); ("243", vdark t); ("240", dark t);
        ("238", vdark t); ("235", light t); ("232", vdark t) ].
Proof. reflexivity. Qed.

Lemma doubleRing_shown (t : Tones) (p : point) :
  shown (doubleRing t) p =
  fold_left (fun top d => if covers (Disc 256 256 (fst d)) p then Some (snd d) else top)
            [ (252, vdark t); (248, base t); (243, vdark t); (240, dark t);
              (238, vdark t); (235, light t); (232, vdark t) ]%Z None.
Proof. unfold shown. rewrite doubleRing_elements. reflexivity. Qed.

Ltac band_covers Hi Ho :=
  repeat first
    [ rewrite (covers_outer _ _ _ Ho) by lia
    | rewrite (covers_inner _ _ _ Hi) by lia ].

Lemma doubleRing_band_shown (t : Tones) (p : point) (outer inner : Z) (fill : string) :
  In (outer, inner, fill)
     [ (252, 248, vdark t); (248, 243, base t); (243, 240, vdark t); (240, 238, dark t);
       (238, 235, vdark t); (235, 232, light t) ]%Z ->
  in_band outer inner p ->
  shown (doubleRing t) p = Some fill.
Proof.
  intros Hin [Hi Ho]. rewrite doubleRing_shown. cbn [fold_left fst snd].
  cbn [In] in Hin.
  repeat (destruct Hin as [Hin | Hin];
          [injection Hin as <- <- <-; band_covers Hi Ho; reflexivity|]).
  destruct Hin.
Qed.

Lemma alpha_opaque_first
    (element_alpha : node -> point -> Q) (doc : list node) (p : point)
    (ls rest : list leaf) (l : leaf) (shapes : list painted) :
  read [] doc = Some ls ->
  mask_shapes "fm" ls = Some shapes ->
  painted_leaves ls = l :: rest ->
  (element_alpha (leaf_node l) p
   * (if masked_by "fm" l then mask_value shapes p else 1) == 1)%Q ->
  exists a, document_alpha element_alpha doc p = Some a /\ (a == 1)%Q.
Proof.
  intros Hr Hm Hp H1. unfold document_alpha. rewrite Hr, Hm, Hp.
  eexists. split; [reflexivity|].
  cbn [fold_left]. apply alpha_stays_opaque.
  unfold over. rewrite H1. ring.
Qed.

Lemma doubleRing_read (t : Tones) :
  exists ls rest,
    read [] (document (doubleRing t)) = Some ls
    /\ mask_shapes "fm" ls = Some mask_fm
    /\ painted_leaves ls =
       mkLeaf (Tag "circle" [("cx", "256"); ("cy", "256"); ("r", "252"); ("fill", vdark t)] " />")
              [ Tag "g" [("mask", "url(#fm)")] ">";
                Tag "svg" [("xmlns", "http://www.w3.org/2000/svg");
                           ("xmlns:xlink", "http://www.w3.org/1999/xlink");
                           ("width", "512"); ("height", "512");
                           ("viewBox", "0 0 512 512")] ">" ] :: rest.
Proof. eexists. eexists. split; [reflexivity|]. split; reflexivity. Qed.

Lemma doubleRing_band_visible (t : Tones) (p : point) (outer inner : Z) :
  in_band outer inner p -> (232 <= inner)%Z -> (0 <= outer <= 252)%Z ->
  exists a, document_alpha solid_alpha (document (doubleRing t)) p = Some a /\ (a == 1)%Q.
Proof.
  intros Hb H1 H2.
  assert (Hm : (mask_value mask_fm p == 1)%Q)
    by (apply (mask_open_in_band outer inner); trivial; lia).
  destruct Hb as [Hi Ho].
  destruct (doubleRing_read t) as (ls & rest & Hr & Hs & Hp).
  apply (alpha_opaque_first solid_alpha _ p ls rest _ mask_fm Hr Hs Hp).
  change (masked_by "fm" _) with true. cbv iota. rewrite Hm.
  change (solid_alpha _ p) with (if covers (Disc 256 256 252) p then 1%Q else 0%Q).
  rewrite (covers_outer outer 252 p Ho) by lia. reflexivity.
Qed.

(** C7, amended: the scene of the Double Ring consists of seven filled
    circles and nothing else, all centered at (256, 256), of radii 252, 248,
    243, 240, 238, 235 and 232, strictly decreasing, filled with vdark, base,
    vdark (the outer ring), dark (the gap), vdark, light, vdark (the inner
    ring).  Each of the six bands between two neighbouring radii is visible:
    with the circles painted one over the other it shows the fill of the
    circle it begins with, the gap band between 240 and 238 the dark tone,
    and the mask leaves it opaque. *)
Theorem double_ring_scene (color : string) :
  let t := toneVariants color in
  frameDoubleRing color = print (document (doubleRing t))
  /\ elements (doubleRing t) =
     map (fun d => Tag "circle" [("cx", "256"); ("cy", "256"); ("r", decimal (fst d));
                                 ("fill", snd d)] " />")
         [ (252, vdark t); (248, base t); (243, vdark t); (240, dark t);
           (238, vdark t); (235, light t); (232, vdark t) ]%Z
  /\ StronglySorted Z.gt [252; 248; 243; 240; 238; 235; 232]%Z
  /\ forall (p : point) (outer inner : Z) (fill : string),
       In (outer, inner, fill)
          [ (252, 248, vdark t); (248, 243, base t); (243, 240, vdark t);
            (240, 238, dark t); (238, 235, vdark t); (235, 232, light t) ]%Z ->
       in_band outer inner p ->
       shown (doubleRing t) p = Some fill
       /\ exists a,
            document_alpha solid_alpha (document (doubleRing t)) p = Some a /\ (a == 1)%Q.
Proof.
  intros t. split; [apply svgWrap_document|]. split; [reflexivity|].
  split; [repeat constructor; lia|].
  intros p outer inner fill Hin Hb. split.
  - now apply (doubleRing_band_shown t p outer inner fill).
  - apply (doubleRing_band_visible t p outer inner Hb);
      cbn [In] in Hin; intuition (try congruence);
      match goal with H : (_, _, _) = _ |- _ => injection H as <- <- <- end; lia.
Qed.

(** ** C8: the Rope Twist *)

(** C8: the Rope Twist frame is, inside the wrapper, two discs, 36 curves and
    a last disc, and nothing else.  Curve [i] starts on the circle of radius
    242 at the angle [i * (2 pi / 36) - pi / 2], ends on it 0.55 of a step
    further, and bends towards the point of radius 234 at the angle of its
    middle moved by +0.08 for an even [i] and -0.08 for an odd one; it is
    stroked 9 wide, with base for an even [i] and dark for an odd one.  The
    first curve starts at -pi/2, the top of the canvas; the start angles
    increase with the index, one step apart. *)
Theorem rope_twist_strands (host : Host) (color : string) :
  let t := toneVariants color in
  let step := 2 * Math_PI / 36 in
  let start := fun i : nat => Number_of_nat i * step - Math_PI / 2 in
  let stop := fun i : nat => start i + step * 0.55 in
  let twist := fun i : nat => if Nat.even i then 0.08 else -0.08 in
  let control := fun i : nat => start i + step * 0.275 + twist i in
  let x := fun (radius angle : float) => toFixed host (256 + radius * Math_cos host angle) 1 in
  let y := fun (radius angle : float) => toFixed host (256 + radius * Math_sin host angle) 1 in
  let disc := fun (r fill : string) =>
    Tag "circle" [("cx", "256"); ("cy", "256"); ("r", r); ("fill", fill)] " />" in
  let strand := fun i : nat =>
    Tag "path" [("d", "M" ++ x 242 (start i) ++ "," ++ y 242 (start i)
                      ++ " Q" ++ x 234 (control i) ++ "," ++ y 234 (control i)
                      ++ " " ++ x 242 (stop i) ++ "," ++ y 242 (stop i));
                ("stroke", if Nat.even i then base t else dark t);
                ("stroke-width", "9"); ("fill", "none"); ("stroke-linecap", "round")] "/>" in
  frameRopeTwist host color = print (document (ropeTwist host t))
  /\ elements (ropeTwist host t) =
     ([ disc "252" (vdark t); disc "248" (dark t) ] ++ map strand (seq 0 36)
      ++ [ disc "233" (vdark t) ])%list
  /\ List.length (tagged "path" (ropeTwist host t)) = 36%nat
  /\ start 0%nat = - (Math_PI / 2)
  /\ Forall (fun i => (start i <? start (S i)) = true
                      /\ (abs (start (S i) - start i - step) <? 1e-15) = true) (seq 0 35)
  /\ Forall (fun i =>
       (abs (stop i - (start i + 0.55 * (start (S i) - start i))) <? 1e-15) = true
       /\ (abs (control i - ((start i + stop i) / 2 + twist i)) <? 1e-15) = true)
            (seq 0 36).
Proof.
  intros t step start stop twist control x y disc strand.
  split; [apply svgWrap_document|].
  subst step start stop twist control x y disc strand. cbv beta.
  generalize t. clear t. intros t.
  split; [vm_compute; reflexivity|].
  split; [vm_compute; reflexivity|].
  split; [vm_compute; reflexivity|].
  split; cbn [seq]; repeat constructor; vm_compute; reflexivity.
Qed.

(** ** C6: the registry *)




(** X16: picking a frame by position, as app.js does, throws a TypeError
    exactly when the index is 6 or more, past the last frame, whatever the
    color. *)
Lemma frameAt_out_of_range (host : Host) (i : nat) (color : string) :
  frameAt host i color = TypeError <-> (6 <= i)%nat.
Proof.
  unfold frameAt. split.
  - destruct (nth_error (FRAMES host) i) eqn:E; [discriminate|].
    intros _. apply nth_error_None in E. exact E.
  - intros Hi. assert (E : nth_error (FRAMES host) i = None)
      by (apply nth_error_None; exact Hi).
    now rewrite E.
Qed.

(** ** C2: a frame that is not registered *)




(** ** C5: the mask *)

Lemma mask_closed_in_hole (p : point) : in_hole p -> (mask_value mask_fm p == 0)%Q.
Proof.
  unfold in_hole, mask_value, mask_fm. cbn [fold_left outline paint].
  intros H.
  assert (C : covers (Disc 256 256 232) p = true).
  { unfold covers. apply Qle_bool_iff. apply Qlt_le_weak. exact H. }
  rewrite C. reflexivity.
Qed.

Lemma alpha_under_closed_mask
    (element_alpha : node -> point -> Q) (shapes : list painted) (p : point)
    (ls : list leaf) (below : Q) :
  (mask_value shapes p == 0)%Q ->
  forallb (masked_by "fm") ls = true ->
  (below == 0)%Q ->
  (fold_left
     (fun below l =>
        over (element_alpha (leaf_node l) p
              * (if masked_by "fm" l then mask_value shapes p else 1))%Q below)
     ls below == 0)%Q.
Proof.
  intros Hm. revert below. induction ls as [|l ls IH]; intros below Hall Hb; [exact Hb|].
  cbn [forallb] in Hall. apply andb_true_iff in Hall. destruct Hall as [Hl Hall].
  cbn [fold_left]. apply IH; [exact Hall|].
  rewrite Hl. unfold over. rewrite Hm, Hb. ring.
Qed.

Lemma scene_under_mask_intro (scene : list node) (ls scene_ls : list leaf) :
  read [] (document scene) = Some ls ->
  read [] scene = Some scene_ls ->
  mask_shapes "fm" ls = Some mask_fm ->
  map leaf_node (painted_leaves ls) = map leaf_node (painted_leaves scene_ls) ->
  forallb (masked_by "fm") (painted_leaves ls) = true ->
  scene_under_mask scene.
Proof.
  intros Hr Hs Hm He Hall. split.
  - exists ls, scene_ls. repeat split; assumption.
  - intros element_alpha p Hp. unfold document_alpha. rewrite Hr, Hm.
    eexists. split; [reflexivity|].
    apply alpha_under_closed_mask; [now apply mask_closed_in_hole | exact Hall | reflexivity].
Qed.

Ltac read_scene :=
  match goal with
  | |- scene_under_mask ?scene =>
      let ls := eval vm_compute in (read [] (document scene)) in
      let sls := eval vm_compute in (read [] scene) in
      match ls with
      | Some ?l =>
          match sls with
          | Some ?s =>
              apply (scene_under_mask_intro scene l s); vm_compute; reflexivity
          end
      end
  end.

Lemma scenes_under_mask (host : Host) (t : Tones) :
  Forall scene_under_mask (scenes host t).
Proof.
  unfold scenes. repeat (apply Forall_cons; [read_scene|]). apply Forall_nil.
Qed.

(** C5: every frame, for every accent color, is the text of the document
    around its scene.  Read as markup, that document has the mask "fm", a
    white rectangle over the whole canvas with a black disc of radius 232 at
    (256, 256) painted over it; what it paints is what the scene paints, and
    every painted element lies in the group the mask applies to.  So at
    every point strictly inside the disc, the center included, the document
    is fully transparent, however opaque its elements are there. *)
Theorem frames_masked (host : Host) (color : string) :
  Forall2
    (fun frame scene =>
       fn frame color = print (document scene)
       /\ (exists ls scene_ls,
              read [] (document scene) = Some ls
              /\ read [] scene = Some scene_ls
              /\ mask_shapes "fm" ls =
                 Some [ mkPainted (Rect 512 512) "white"; mkPainted (Disc 256 256 232) "black" ]
              /\ map leaf_node (painted_leaves ls) = map leaf_node (painted_leaves scene_ls)
              /\ forallb (masked_by "fm") (painted_leaves ls) = true)
       /\ (forall (element_alpha : node -> point -> Q) (p : point),
              in_hole p ->
              exists a,
                document_alpha element_alpha (document scene) p = Some a /\ (a == 0)%Q))
    (FRAMES host) (scenes host (toneVariants color))
  /\ in_hole (256, 256)%Q.
Proof.
  split; [|reflexivity].
  pose proof (scenes_under_mask host (toneVariants color)) as H.
  unfold scenes in *. unfold FRAMES.
  repeat match type of H with
         | Forall _ (_ :: _) =>
             let Hs := fresh "Hs" in
             apply Forall_cons_iff in H; destruct H as [Hs H]
         end.
  repeat (apply Forall2_cons;
          [split; [apply svgWrap_document
                  | match goal with
                    | Hs : scene_under_mask ?s |- context [document ?s] => exact Hs
                    end]|]).
  apply Forall2_nil.
Qed.

(** ** The tones are colors *)

Lemma hslToHex_channels (h s l : float) :
  hslToHex h s l =
  "#" ++ hex_byte_text (channel255 (lum l, chroma s l) (shade h 0))
      ++ hex_byte_text (channel255 (lum l, chroma s l) (shade h 8))
      ++ hex_byte_text (channel255 (lum l, chroma s l) (shade h 4)).
Proof.
  unfold hslToHex, hex_byte_text, channel255, lum, chroma, shade.
  cbn [fst snd]. reflexivity.
Qed.

Lemma shade_table_complete :
  forallb (fun h => forallb (fun n => existsb (Leibniz.eqb (shade (Number_of_Z h) n)) shade_table)
                            [0; 8; 4])
          (range 0 361) = true.
Proof. vm_compute. reflexivity. Qed.

Lemma shade_in_table (h : Z) (n : float) :
  (0 <= h <= 360)%Z -> In n [0; 8; 4] -> In (shade (Number_of_Z h) n) shade_table.
Proof.
  intros Hh Hn.
  pose proof shade_table_complete as T.
  rewrite forallb_forall in T. specialize (T h (range_spec 0 361 h ltac:(lia))).
  rewrite forallb_forall in T. specialize (T n Hn).
  apply existsb_exists in T. destruct T as (x & Hx & E).
  apply FloatAxioms.Leibniz.eqb_spec in E. now rewrite E.
Qed.

Lemma percent_in_table (z : Z) : (0 <= z <= 100)%Z -> In (Number_of_Z z) percent_table.
Proof.
  intros Hz.
  change percent_table with (map Number_of_Z (range 0 101)).
  apply in_map, range_spec. lia.
Qed.

Lemma channel255_table :
  forallb (fun s => forallb (channels_ok s) percent_table) percent_table = true.
Proof. vm_compute. reflexivity. Qed.

Lemma round_below_255 (x : float) :
  below 255.5 x = true -> integer_between 0 255 (Math_round x).
Proof.
  unfold below. intros H. apply andb_true_iff in H. destruct H as [Hs Hlt].
  apply negb_true_iff in Hs.
  apply (Math_round_below x 255.5 8989607068696576 (-45) 255); try assumption;
    vm_compute; congruence.
Qed.

Lemma byte_text_table :
  forallb (fun z => is_hex_pair (padStart (toString16 (Number_of_Z z)) 2 "0")) (range 0 256)
  = true.
Proof. vm_compute. reflexivity. Qed.

Lemma hex_byte_text_pair (x : float) :
  below 255.5 x = true -> is_hex_pair (hex_byte_text x) = true.
Proof.
  intros H. destruct (round_below_255 x H) as (z & Hz & E).
  unfold hex_byte_text. rewrite E.
  pose proof byte_text_table as T. rewrite forallb_forall in T.
  exact (T z (range_spec 0 256 z ltac:(lia))).
Qed.

Lemma valid_color_of_pairs (a b c : string) :
  is_hex_pair a = true -> is_hex_pair b = true -> is_hex_pair c = true ->
  valid_color ("#" ++ a ++ b ++ c) = true.
Proof.
  destruct a as [|a1 [|a2 [|? ?]]]; try discriminate.
  destruct b as [|b1 [|b2 [|? ?]]]; try discriminate.
  destruct c as [|c1 [|c2 [|? ?]]]; try discriminate.
  cbn. intros Ha Hb Hc.
  apply andb_true_iff in Ha, Hb, Hc.
  destruct Ha as [-> ->], Hb as [-> ->], Hc as [-> ->]. reflexivity.
Qed.

(** hslToHex of an integer triple in range is a well-formed color. *)
Lemma hslToHex_valid (h s l : Z) :
  (0 <= h <= 360)%Z -> (0 <= s <= 100)%Z -> (0 <= l <= 100)%Z ->
  valid_color (hslToHex (Number_of_Z h) (Number_of_Z s) (Number_of_Z l)) = true.
Proof.
  intros Hh Hs Hl. rewrite hslToHex_channels.
  pose proof channel255_table as T. rewrite forallb_forall in T.
  specialize (T _ (percent_in_table s Hs)). rewrite forallb_forall in T.
  specialize (T _ (percent_in_table l Hl)).
  unfold channels_ok in T. rewrite forallb_forall in T.
  apply valid_color_of_pairs; apply hex_byte_text_pair, T, shade_in_table; cbn; auto.
Qed.

(** X1: every tone of a valid accent color is itself a valid color. *)
Theorem tones_well_formed (hex : string) :
  valid_color hex = true -> tones_valid (toneVariants hex) = true.
Proof.
  intros Hv.
  destruct (toneArgs_integers hex Hv) as (h & s & l & (Hh & Hs & Hl) & _ & Ea).
  rewrite toneVariants_args, Ea.
  unfold tones_valid, tones_of_args, hex_of_hsl.
  cbn [base light dark vdark shine base_hsl light_hsl dark_hsl vdark_hsl shine_hsl forallb].
  rewrite !hslToHex_valid by lia. reflexivity.
Qed.

Lemma tones_well_formed_witness : tones_valid (toneVariants "#c0922a") = true.
Proof. apply (tones_well_formed "#c0922a"). reflexivity. Defined.

(** X2: the hue 360, which hexToHSL can return, is the hue 0 for hslToHex. *)
Theorem hslToHex_hue_360 (s l : float) : hslToHex 360 s l = hslToHex 0 s l.
Proof.
  rewrite !hslToHex_channels.
  change (shade 360 0) with (shade 0 0).
  change (shade 360 8) with (shade 0 8).
  change (shade 360 4) with (shade 0 4).
  reflexivity.
Qed.

(** ** Colors that are not colors *)

Lemma SFcompare_refl (a : spec_float) : a <> S754_nan -> SFcompare a a = Some Eq.
Proof.
  destruct a as [s|s| |s m e]; intros H; try congruence.
  - reflexivity.
  - destruct s; reflexivity.
  - cbn [SFcompare]. rewrite Z.compare_refl, Pos.compare_cont_refl.
    destruct s; reflexivity.
Qed.

Lemma is_nan_nan (x : float) : is_nan x = true -> x = nan.
Proof.
  unfold is_nan. intros H. apply negb_true_iff in H.
  rewrite FloatAxioms.eqb_spec in H. unfold SFeqb in H.
  rewrite <- (SF2Prim_Prim2SF x).
  destruct (Prim2SF x) as [s|s| |s m e] eqn:E; try reflexivity;
    rewrite SFcompare_refl in H by discriminate; discriminate H.
Qed.

Lemma nan_eqb (x : float) : (nan =? x) = false.
Proof. rewrite FloatAxioms.eqb_spec. reflexivity. Qed.

Lemma Math_max2_nan (x y : float) :
  is_nan x || is_nan y = true -> Math_max2 x y = nan.
Proof.
  unfold Math_max2. intros H.
  destruct (is_nan x) eqn:Ex; [now apply is_nan_nan|].
  destruct (is_nan y) eqn:Ey; [now apply is_nan_nan|].
  discriminate H.
Qed.

Lemma Math_min2_nan (x y : float) :
  is_nan x || is_nan y = true -> Math_min2 x y = nan.
Proof.
  unfold Math_min2. intros H.
  destruct (is_nan x) eqn:Ex; [now apply is_nan_nan|].
  destruct (is_nan y) eqn:Ey; [now apply is_nan_nan|].
  discriminate H.
Qed.

Lemma Math_max3_nan (x y z : float) :
  is_nan x || is_nan y || is_nan z = true -> Math_max3 x y z = nan.
Proof.
  intros H. unfold Math_max3.
  destruct (is_nan x || is_nan y) eqn:E.
  - rewrite (Math_max2_nan x y E). reflexivity.
  - cbn [orb] in H. apply Math_max2_nan. rewrite H. apply orb_true_r.
Qed.

Lemma Math_min3_nan (x y z : float) :
  is_nan x || is_nan y || is_nan z = true -> Math_min3 x y z = nan.
Proof.
  intros H. unfold Math_min3.
  destruct (is_nan x || is_nan y) eqn:E.
  - rewrite (Math_min2_nan x y E). reflexivity.
  - cbn [orb] in H. apply Math_min2_nan. rewrite H. apply orb_true_r.
Qed.

Lemma hslOfChannels_nan (r g b : float) :
  is_nan r || is_nan g || is_nan b = true -> hslOfChannels r g b = (nan, nan, nan).
Proof.
  intros H. unfold hslOfChannels.
  rewrite (Math_max3_nan r g b H), (Math_min3_nan r g b H).
  rewrite !nan_eqb. reflexivity.
Qed.

(** X3: a color with a channel that parseInt cannot read gives the triple
    [NaN, NaN, NaN], and each of the five tones is the text "#NaNNaNNaN". *)
Theorem unreadable_color_gives_NaN (hex : string) :
  parseInt16 (slice hex 1 3) = nan \/ parseInt16 (slice hex 3 5) = nan
  \/ parseInt16 (slice hex 5 7) = nan ->
  hexToHSL hex = (nan, nan, nan)
  /\ toneVariants hex = mkTones NaN_color NaN_color NaN_color NaN_color NaN_color.
Proof.
  intros H.
  assert (E : hexToHSL hex = (nan, nan, nan)).
  { rewrite hexToHSL_channels. apply hslOfChannels_nan.
    destruct H as [-> | [-> | ->]]; cbn [orb];
      repeat rewrite orb_true_r; reflexivity. }
  split; [exact E|].
  unfold toneVariants. rewrite E. vm_compute. reflexivity.
Qed.

Lemma unreadable_color_gives_NaN_witness :
  hexToHSL "red" = (nan, nan, nan)
  /\ toneVariants "red" = mkTones NaN_color NaN_color NaN_color NaN_color NaN_color.
Proof.
  apply (unreadable_color_gives_NaN "red"). right. left. reflexivity.
Defined.

(** ** The motifs of the other frames *)

(** X4: Riveted Metal is, inside the wrapper, three discs (252 vdark, 249
    dark, 237 base), five stroked rings, 24 rivets and the disc 233 vdark,
    and nothing else.  The rings have the radii 234, 237, 240, 243, 246 and
    the opacities 0.12, 0.16, 0.2, 0.24, 0.28, exactly these Numbers.  Rivet
    [i] is an outer circle of radius 5 and a highlight of radius 2, both
    centered on the circle of radius 242 at the angle [i / 24 * 2 pi - pi / 2];
    the angles start at -pi/2 and increase by 2 pi / 24, up to rounding below
    1e-15. *)
Theorem riveted_metal_scene (host : Host) (color : string) :
  let t := toneVariants color in
  let angle := fun i : nat => Number_of_nat i / 24 * 2 * Math_PI - Math_PI / 2 in
  let radius := fun i : nat => 234 + Number_of_nat i * 3 in
  let opacity := fun i : nat => 0.12 + Number_of_nat i * 0.04 in
  let x := fun a : float => toFixed host (256 + 242 * Math_cos host a) 1 in
  let y := fun a : float => toFixed host (256 + 242 * Math_sin host a) 1 in
  let disc := fun (r fill : string) =>
    Tag "circle" [("cx", "256"); ("cy", "256"); ("r", r); ("fill", fill)] " />" in
  let ring := fun i : nat =>
    Tag "circle" [("cx", "256"); ("cy", "256"); ("r", Number_toString host (radius i));
                  ("fill", "none"); ("stroke", light t); ("stroke-width", "1.5");
                  ("opacity", Number_toString host (opacity i))] "/>" in
  let rivet := fun i : nat =>
    [ Tag "circle" [("cx", x (angle i)); ("cy", y (angle i)); ("r", "5"); ("fill", vdark t);
                    ("stroke", shine t); ("stroke-width", "1.5")] "/>";
      Tag "circle" [("cx", x (angle i)); ("cy", y (angle i)); ("r", "2");
                    ("fill", light t)] "/>" ] in
  frameRivetedMetal host color = print (document (rivetedMetal host t))
  /\ elements (rivetedMetal host t) =
     ([ disc "252" (vdark t); disc "249" (dark t); disc "237" (base t) ]
      ++ map ring (seq 0 5) ++ flat_map rivet (seq 0 24) ++ [ disc "233" (vdark t) ])%list
  /\ map radius (seq 0 5) = [234; 237; 240; 243; 246]
  /\ map opacity (seq 0 5) = [0.12; 0.16; 0.2; 0.24; 0.28]
  /\ angle 0%nat = - (Math_PI / 2)
  /\ Forall (fun i => (angle i <? angle (S i)) = true
                      /\ (abs (angle (S i) - angle i - 2 * Math_PI / 24) <? 1e-15) = true)
            (seq 0 23).
Proof.
  intros t angle radius opacity x y disc ring rivet.
  split; [apply svgWrap_document|].
  subst angle radius opacity x y disc ring rivet. cbv beta.
  generalize t. clear t. intros t.
  split; [vm_compute; reflexivity|].
  split; [vm_compute; reflexivity|].
  split; [vm_compute; reflexivity|].
  split; [vm_compute; reflexivity|].
  cbn [seq]. repeat constructor; vm_compute; reflexivity.
Qed.

(** X5: Gem Border is, inside the wrapper, the gradient gemGrad, four discs
    (252 vdark, 249 dark, 236 base, 233 dark), eight beads and eight gems,
    and nothing else.  The beads, of radius 3.5, lie on the circle of radius
    242 at -67.5, -22.5, ..., 247.5 degrees, each exactly half way between two
    neighbouring gems; the gems stand at -90, -45, ..., 225 degrees, each one
    two polygons over the same four corners around its center on that circle,
    the first filled with base and the second with the gradient, and a shine
    dot at the center. *)
Theorem gem_border_scene (host : Host) (color : string) :
  let t := toneVariants color in
  let gem_degrees := [-90; -45; 0; 45; 90; 135; 180; 225] in
  let bead_degrees := [-67.5; -22.5; 22.5; 67.5; 112.5; 157.5; 202.5; 247.5] in
  let cos := Math_cos host in
  let sin := Math_sin host in
  let fixed := fun v : float => toFixed host v 1 in
  let disc := fun (r fill : string) =>
    Tag "circle" [("cx", "256"); ("cy", "256"); ("r", r); ("fill", fill)] " />" in
  let bead := fun degrees : float =>
    let a := degrees * Math_PI / 180 in
    Tag "circle" [("cx", fixed (256 + 242 * cos a)); ("cy", fixed (256 + 242 * sin a));
                  ("r", "3.5"); ("fill", light t); ("stroke", vdark t);
                  ("stroke-width", "1")] "/>" in
  let gem := fun degrees : float =>
    let a := degrees * Math_PI / 180 in
    let gx := 256 + 242 * cos a in
    let gy := 256 + 242 * sin a in
    let corner := fun (direction factor : float) =>
      String.concat "," [ fixed (gx + cos direction * 13 * factor);
                          fixed (gy + sin direction * 13 * factor) ] in
    let points := String.concat " " [ corner a 0.4; corner (a + 1.2) 0.55;
                                      corner (a + Math_PI) 0.35; corner (a - 1.2) 0.55 ] in
    [ Tag "polygon" [("points", points); ("fill", base t); ("stroke", vdark t);
                     ("stroke-width", "1")] "/>";
      Tag "polygon" [("points", points); ("fill", "url(#gemGrad)"); ("opacity", "0.4")] "/>";
      Tag "circle" [("cx", fixed gx); ("cy", fixed gy); ("r", fixed (13 * 0.18));
                    ("fill", shine t); ("opacity", "0.7")] "/>" ] in
  frameGemBorder host color = print (document (gemBorder host t))
  /\ elements (gemBorder host t) =
     ([ Tag "defs" [] ">";
        Tag "radialGradient" [("id", "gemGrad"); ("cx", "35%"); ("cy", "35%"); ("r", "65%")] ">";
        Tag "stop" [("offset", "0%"); ("stop-color", "white"); ("stop-opacity", "0.9")] "/>";
        Tag "stop" [("offset", "100%"); ("stop-color", "white"); ("stop-opacity", "0")] "/>";
        Text "</radialGradient>"; Text "</defs>";
        disc "252" (vdark t); disc "249" (dark t); disc "236" (base t); disc "233" (dark t) ]
      ++ map bead bead_degrees ++ flat_map gem gem_degrees)%list
  /\ Forall2 (fun b g => b = (fst g + snd g) / 2) bead_degrees
             (combine gem_degrees [-45; 0; 45; 90; 135; 180; 225; 270]).
Proof.
  intros t gem_degrees bead_degrees cos sin fixed disc bead gem.
  split; [apply svgWrap_document|].
  subst gem_degrees bead_degrees cos sin fixed disc bead gem. cbv beta zeta.
  generalize t. clear t. intros t.
  split; [vm_compute; reflexivity|].
  cbn [combine]. repeat constructor; vm_compute; reflexivity.
Qed.

(** X6: Ornate Fantasy is, inside the wrapper, four discs (252 vdark, 248
    dark, 244 base, 237 dark), eight vines, eight petals and the disc 233
    vdark, and nothing else.  The spokes stand at -90, -45, ..., 225 degrees.
    A vine is a curve on the circle of radius 241 from 22 to 44 degrees past
    its spoke, bent through radius 245 at the middle angle, and ends before
    the next spoke; a petal is a curve from radius 238 at 0.18 before its
    spoke over radius 248 on the spoke to radius 238 at 0.18 after it, with a
    tip circle at radius 248 on the spoke. *)
Theorem ornate_fantasy_scene (host : Host) (color : string) :
  let t := toneVariants color in
  let spokes := [-90; -45; 0; 45; 90; 135; 180; 225] in
  let x := fun (radius angle : float) => toFixed host (256 + radius * Math_cos host angle) 1 in
  let y := fun (radius angle : float) => toFixed host (256 + radius * Math_sin host angle) 1 in
  let disc := fun (r fill : string) =>
    Tag "circle" [("cx", "256"); ("cy", "256"); ("r", r); ("fill", fill)] " />" in
  let vine := fun spoke : float =>
    let a0 := (spoke + 22) * Math_PI / 180 in
    let a1 := (spoke + 44) * Math_PI / 180 in
    Tag "path" [("d", "M" ++ x 241 a0 ++ "," ++ y 241 a0
                      ++ " Q" ++ x 245 ((a0 + a1) / 2) ++ "," ++ y 245 ((a0 + a1) / 2)
                      ++ " " ++ x 241 a1 ++ "," ++ y 241 a1);
                ("stroke", base t); ("stroke-width", "2"); ("fill", "none")] "/>" in
  let petal := fun spoke : float =>
    let a := spoke * Math_PI / 180 in
    [ Tag "path" [("d", "M" ++ x 238 (a - 0.18) ++ "," ++ y 238 (a - 0.18)
                        ++ " Q" ++ x 248 a ++ "," ++ y 248 a
                        ++ " " ++ x 238 (a + 0.18) ++ "," ++ y 238 (a + 0.18));
                  ("stroke", shine t); ("stroke-width", "2.5"); ("fill", "none")] "/>";
      Tag "circle" [("cx", x 248 a); ("cy", y 248 a); ("r", toFixed host (6 * 0.35) 1);
                    ("fill", light t)] "/>" ] in
  frameOrnateFantasy host color = print (document (ornateFantasy host t))
  /\ elements (ornateFantasy host t) =
     ([ disc "252" (vdark t); disc "248" (dark t); disc "244" (base t); disc "237" (dark t) ]
      ++ map vine spokes ++ flat_map petal spokes ++ [ disc "233" (vdark t) ])%list
  /\ Forall2 (fun spoke next => (spoke + 44 <? next) = true) spokes
             [-45; 0; 45; 90; 135; 180; 225; 270].
Proof.
  intros t spokes x y disc vine petal.
  split; [apply svgWrap_document|].
  subst spokes x y disc vine petal. cbv beta zeta.
  generalize t. clear t. intros t.
  split; [vm_compute; reflexivity|].
  repeat constructor; vm_compute; reflexivity.
Qed.

(** ** The order of Numbers *)

Lemma SFcompare_opp (a b : spec_float) :
  SFcompare b a = option_map CompOpp (SFcompare a b).
Proof.
  destruct a as [sa|sa| |sa ma ea], b as [sb|sb| |sb mb eb]; cbn [SFcompare option_map];
    try reflexivity; try (destruct sa; reflexivity); try (destruct sb; reflexivity);
    try (destruct sa, sb; reflexivity).
  destruct sa, sb; cbn [CompOpp]; try reflexivity;
    rewrite (Z.compare_antisym ea eb);
    destruct (ea ?= eb)%Z; cbn [CompOpp]; try reflexivity;
    now rewrite (Pos.compare_cont_antisym ma mb Eq).
Qed.

Lemma ltb_asym (x y : float) : (x <? y) = true -> (y <? x) = false.
Proof.
  rewrite !FloatAxioms.ltb_spec. unfold SFltb.
  rewrite (SFcompare_opp (Prim2SF x) (Prim2SF y)).
  destruct (SFcompare (Prim2SF x) (Prim2SF y)) as [[]|]; cbn; congruence.
Qed.

Lemma ltb_leb (x y : float) : (x <? y) = true -> (x <=? y) = true.
Proof.
  rewrite FloatAxioms.ltb_spec, FloatAxioms.leb_spec. unfold SFltb, SFleb.
  destruct (SFcompare (Prim2SF x) (Prim2SF y)) as [[]|]; congruence.
Qed.

Lemma is_nan_Prim2SF (x : float) : is_nan x = false -> Prim2SF x <> S754_nan.
Proof.
  unfold is_nan. intros H E. apply negb_false_iff in H.
  rewrite FloatAxioms.eqb_spec, E in H. discriminate H.
Qed.

Lemma SFcompare_total (a b : spec_float) :
  a <> S754_nan -> b <> S754_nan -> exists c, SFcompare a b = Some c.
Proof.
  destruct a as [sa|sa| |sa ma ea], b as [sb|sb| |sb mb eb]; intros Ha Hb;
    try congruence; cbn [SFcompare]; eauto.
Qed.

Lemma not_ltb_leb (x y : float) :
  is_nan x = false -> is_nan y = false -> (x <? y) = false -> (y <=? x) = true.
Proof.
  intros Hx Hy. rewrite FloatAxioms.ltb_spec, FloatAxioms.leb_spec. unfold SFltb, SFleb.
  rewrite (SFcompare_opp (Prim2SF x) (Prim2SF y)).
  destruct (SFcompare_total _ _ (is_nan_Prim2SF x Hx) (is_nan_Prim2SF y Hy)) as [c ->].
  destruct c; cbn; congruence.
Qed.

Lemma ltb_irrefl (x : float) : (x <? x) = false.
Proof.
  destruct (x <? x) eqn:E; [|reflexivity].
  pose proof (ltb_asym x x E). congruence.
Qed.

Lemma leb_refl (x : float) : is_nan x = false -> (x <=? x) = true.
Proof. intros H. apply not_ltb_leb; trivial. apply ltb_irrefl. Qed.

Lemma nan_ltb (y : float) : (nan <? y) = false.
Proof. rewrite FloatAxioms.ltb_spec. reflexivity. Qed.

Lemma Math_max2_cases (x y : float) : Math_max2 x y = x \/ Math_max2 x y = y.
Proof.
  unfold Math_max2.
  destruct (is_nan x), (is_nan y), (x <? y), (y <? x), (get_sign x); auto.
Qed.

Lemma Math_min2_cases (x y : float) : Math_min2 x y = x \/ Math_min2 x y = y.
Proof.
  unfold Math_min2.
  destruct (is_nan x), (is_nan y), (x <? y), (y <? x), (get_sign x); auto.
Qed.

Lemma Math_max2_upper (x y : float) :
  is_nan x = false -> is_nan y = false ->
  le x (Math_max2 x y) /\ le y (Math_max2 x y).
Proof.
  intros Hx Hy. unfold Math_max2, le. rewrite Hx, Hy.
  destruct (x <? y) eqn:Exy.
  - split; [now apply ltb_leb | now apply leb_refl].
  - destruct (y <? x) eqn:Eyx.
    + split; [now apply leb_refl | now apply ltb_leb].
    + pose proof (not_ltb_leb x y Hx Hy Exy).
      pose proof (not_ltb_leb y x Hy Hx Eyx).
      destruct (get_sign x); split; trivial; now apply leb_refl.
Qed.

Lemma Math_min2_lower (x y : float) :
  is_nan x = false -> is_nan y = false ->
  le (Math_min2 x y) x /\ le (Math_min2 x y) y.
Proof.
  intros Hx Hy. unfold Math_min2, le. rewrite Hx, Hy.
  destruct (x <? y) eqn:Exy.
  - split; [now apply leb_refl | now apply ltb_leb].
  - destruct (y <? x) eqn:Eyx.
    + split; [now apply ltb_leb | now apply leb_refl].
    + pose proof (not_ltb_leb x y Hx Hy Exy).
      pose proof (not_ltb_leb y x Hy Hx Eyx).
      destruct (get_sign x); split; trivial; now apply leb_refl.
Qed.

(** Math.max(c, y) is never below [c]: it is [c], a Number above it, or NaN. *)
Lemma Math_max2_floor (c y : float) :
  is_nan c = false -> (Math_max2 c y <? c) = false.
Proof.
  intros Hc. unfold Math_max2. rewrite Hc.
  destruct (is_nan y) eqn:Hy.
  - rewrite (is_nan_nan y Hy). apply nan_ltb.
  - destruct (c <? y) eqn:Ecy; [now apply ltb_asym|].
    destruct (y <? c) eqn:Eyc; [apply ltb_irrefl|].
    destruct (get_sign c); [exact Eyc | apply ltb_irrefl].
Qed.

(** ** app.js: the handles *)

Lemma clamp_coordinate_range (x : float) :
  is_nan x = false -> le 10 (clamp_coordinate x) /\ le (clamp_coordinate x) 502.
Proof.
  intros Hx. unfold clamp_coordinate.
  change (App.HANDLE_R + 2) with 10. change (App.SIZE - 10) with 502.
  assert (Ht : is_nan (Math_min2 502 x) = false)
    by (destruct (Math_min2_cases 502 x) as [-> | ->]; [reflexivity | exact Hx]).
  destruct (Math_max2_upper 10 (Math_min2 502 x) eq_refl Ht) as [H10 _].
  split; [exact H10|].
  destruct (Math_max2_cases 10 (Math_min2 502 x)) as [-> | ->].
  - reflexivity.
  - now destruct (Math_min2_lower 502 x eq_refl Hx).
Qed.

(** X7: whatever corner it is given (NaN apart), clampHandle returns a point
    whose two coordinates lie between 10 and 502, the canvas less the
    padding of a handle. *)
Theorem clampHandle_in_canvas (x y : float) :
  is_nan x = false -> is_nan y = false ->
  le 10 (fst (App.clampHandle x y)) /\ le (fst (App.clampHandle x y)) 502
  /\ le 10 (snd (App.clampHandle x y)) /\ le (snd (App.clampHandle x y)) 502.
Proof.
  intros Hx Hy.
  destruct (clamp_coordinate_range x Hx), (clamp_coordinate_range y Hy).
  repeat split; assumption.
Qed.

Lemma clampHandle_in_canvas_witness :
  le 10 (fst (App.clampHandle (-40) 700)) /\ le (fst (App.clampHandle (-40) 700)) 502
  /\ le 10 (snd (App.clampHandle (-40) 700)) /\ le (snd (App.clampHandle (-40) 700)) 502.
Proof. apply (clampHandle_in_canvas (-40) 700); reflexivity. Defined.

Lemma hit_from_spec (corners : list (float * float)) (i : Z) (mx my : float) :
  (0 <= i)%Z ->
  (App.hit_from corners i mx my = (-1)%Z
   /\ Forall (fun c => App.handle_hit mx my c = false) corners)
  \/ (exists k : nat,
        App.hit_from corners i mx my = (i + Z.of_nat k)%Z
        /\ (k < List.length corners)%nat
        /\ (exists c, nth_error corners k = Some c /\ App.handle_hit mx my c = true)
        /\ Forall (fun c => App.handle_hit mx my c = false) (firstn k corners)).
Proof.
  revert i. induction corners as [|c rest IH]; intros i Hi; cbn [App.hit_from].
  - left. split; [reflexivity | constructor].
  - destruct (App.handle_hit mx my c) eqn:E.
    + right. exists 0%nat. repeat split.
      * lia.
      * cbn. lia.
      * exists c. split; [reflexivity | exact E].
      * constructor.
    + destruct (IH (i + 1)%Z ltac:(lia)) as [[Hr Hall] | (k & Hr & Hk & Hc & Hbefore)].
      * left. split; [exact Hr | now constructor].
      * right. exists (S k). repeat split.
        -- rewrite Hr. lia.
        -- cbn. lia.
        -- exact Hc.
        -- cbn [firstn]. now constructor.
Qed.

(** X8: hitTestCorner returns -1 when there is no image or no handle is under
    the pointer; otherwise it returns the index, from 0 to 3, of the first
    corner in the order TL, TR, BL, BR whose handle is under the pointer. *)
Theorem hitTestCorner_first_hit (st : App.State) (mx my : float) :
  (App.image st = None -> App.hitTestCorner st mx my = (-1)%Z)
  /\ ((App.hitTestCorner st mx my = (-1)%Z
       /\ Forall (fun c => App.handle_hit mx my c = false) (App.getCorners st))
      \/ (exists k : nat,
            App.hitTestCorner st mx my = Z.of_nat k /\ (k < 4)%nat
            /\ (exists c, nth_error (App.getCorners st) k = Some c
                          /\ App.handle_hit mx my c = true)
            /\ Forall (fun c => App.handle_hit mx my c = false)
                      (firstn k (App.getCorners st)))).
Proof.
  split.
  - intros H. unfold App.hitTestCorner, App.getCorners. now rewrite H.
  - unfold App.hitTestCorner.
    destruct (hit_from_spec (App.getCorners st) 0 mx my ltac:(lia))
      as [H | (k & Hr & Hk & Hc & Hb)]; [left; exact H|].
    right. exists k. repeat split; trivial.
    unfold App.getCorners in Hk. destruct (App.image st); cbn in Hk; lia.
Qed.

(** ** app.js: the zoom *)

(** X9: the wheel never leaves the zoom below 0.05. *)
Theorem wheel_zoom_floor (st : App.State) (deltaY mx my : float) :
  (App.zoom (App.wheel st deltaY mx my) <? 0.05) = false.
Proof. cbn [App.wheel App.set_view App.zoom]. now apply Math_max2_floor. Qed.

Section ResizeFacts.

Context (Math_sqrt : float -> float) (pow : float -> float -> float).

(** X10: a resize keeps the zoom at 0.05 or above: it either returns the state
    as it is or sets the zoom to Math.max(0.05, ...). *)
Theorem applyResize_zoom_floor (st : App.State) (mx my : float) :
  (App.zoom st <? 0.05) = false ->
  (App.zoom (App.applyResize Math_sqrt pow st mx my) <? 0.05) = false.
Proof.
  intros H. unfold App.applyResize.
  destruct (App.image st) as [img|]; [|exact H].
  destruct (App.resizeFixedCorner st) as [fX fY].
  destruct (App.resizeActiveCorner st) as [aX aY].
  match goal with |- context [if ?b then _ else _] => destruct b end; [exact H|].
  match goal with |- context [let '(x, y) := ?p in _] => destruct p as [x y] end.
  cbn [App.set_view App.zoom]. now apply Math_max2_floor.
Qed.

(** X11: when the bottom-right corner is dragged (corner 3), a resize that
    changes the state puts the top-left corner of the image exactly at the
    fixed point recorded when the drag began. *)
Theorem applyResize_anchors_top_left (st : App.State) (mx my : float) :
  App.image st <> None ->
  App.resizeCorner st = 3%Z ->
  App.applyResize Math_sqrt pow st mx my = st
  \/ nth_error (App.getCorners (App.applyResize Math_sqrt pow st mx my)) 0
     = Some (App.resizeFixedCorner st).
Proof.
  intros Hi Hc. unfold App.applyResize.
  destruct (App.image st) as [img|] eqn:Ei; [|congruence].
  destruct (App.resizeFixedCorner st) as [fX fY].
  destruct (App.resizeActiveCorner st) as [aX aY].
  match goal with |- context [if ?b then _ else _] => destruct b end; [now left|].
  right. rewrite Hc. change (3 - 3)%Z with 0%Z. cbv iota beta.
  unfold App.getCorners. cbn [App.set_view App.image App.panX App.panY].
  rewrite Ei. reflexivity.
Qed.

End ResizeFacts.

Lemma applyResize_zoom_floor_witness :
  (App.zoom (App.applyResize sqrt square sample_drag 400 380) <? 0.05) = false.
Proof. apply (applyResize_zoom_floor sqrt square sample_drag 400 380). reflexivity. Defined.

Lemma applyResize_anchors_top_left_witness :
  App.applyResize sqrt square sample_drag 400 380 = sample_drag
  \/ nth_error (App.getCorners (App.applyResize sqrt square sample_drag 400 380)) 0
     = Some (App.resizeFixedCorner sample_drag).
Proof.
  apply (applyResize_anchors_top_left sqrt square sample_drag 400 380).
  - discriminate.
  - reflexivity.
Defined.

(** X12: fitImage sets the zoom to the larger of the two ratios of the clip
    diameter (464) to the sides of the image, so that the fitted image is
    nowhere smaller than the clip circle; without an image it does nothing. *)
Theorem fitImage_covers (st : App.State) (img : App.Image) :
  App.image st = Some img ->
  is_nan (464 / App.width img) = false ->
  is_nan (464 / App.height img) = false ->
  let z := App.zoom (App.fitImage st) in
  le (464 / App.width img) z /\ le (464 / App.height img) z
  /\ (z = 464 / App.width img \/ z = 464 / App.height img)
  /\ App.panX (App.fitImage st) = 256 - App.width img * z / 2
  /\ App.panY (App.fitImage st) = 256 - App.height img * z / 2.
Proof.
  intros Hi Hw Hh. unfold App.fitImage. rewrite Hi.
  cbn [App.set_view App.zoom App.panX App.panY].
  change (App.CLIP_R * 2) with 464. change App.CX with 256. change App.CY with 256.
  cbv zeta.
  destruct (Math_max2_upper _ _ Hw Hh) as [H1 H2].
  repeat split; trivial.
  apply Math_max2_cases.
Qed.

Lemma fitImage_covers_witness :
  let st := App.mkState (Some sample_image) 0 0 1 0 "#c0922a" App.none (-1) 1
                        (0, 0) (0, 0) 0 0 0 0 None in
  let z := App.zoom (App.fitImage st) in
  le (464 / App.width sample_image) z /\ le (464 / App.height sample_image) z
  /\ (z = 464 / App.width sample_image \/ z = 464 / App.height sample_image)
  /\ App.panX (App.fitImage st) = 256 - App.width sample_image * z / 2
  /\ App.panY (App.fitImage st) = 256 - App.height sample_image * z / 2.
Proof.
  apply (fitImage_covers
           (App.mkState (Some sample_image) 0 0 1 0 "#c0922a" App.none (-1) 1
                        (0, 0) (0, 0) 0 0 0 0 None) sample_image); reflexivity.
Defined.

(** X13: outside the disc of radius 232, anywhere on the canvas, the mask of
    svgWrap is white: the scene shows there with its own opacity. *)
Theorem mask_open_outside_hole (content_alpha : point -> Q) (p : point) :
  in_ring_area p -> (masked_alpha mask_fm content_alpha p == content_alpha p)%Q.
Proof.
  unfold in_ring_area, masked_alpha, mask_value, mask_fm.
  intros (Hx & Hy & Hout). cbn [fold_left outline paint].
  assert (R : covers (Rect 512 512) p = true).
  { unfold covers. rewrite !andb_true_iff. repeat split; apply Qle_bool_iff; tauto. }
  assert (D : covers (Disc 256 256 232) p = false).
  { unfold covers. apply not_true_is_false. intros H. apply Qle_bool_iff in H.
    exact (Qlt_not_le _ _ Hout H). }
  rewrite R, D. cbn. ring.
Qed.

Lemma mask_open_outside_hole_witness :
  (masked_alpha mask_fm (fun _ => 1%Q) (256, 10)%Q == 1)%Q.
Proof.
  apply (mask_open_outside_hole (fun _ => 1%Q) (256, 10)%Q).
  unfold in_ring_area. cbn [fst snd].
  repeat split; vm_compute; first [reflexivity | discriminate].
Defined.

(** ** app.js: the start of a drag *)

Lemma hitTestCorner_range (st : App.State) (mx my : float) :
  App.hitTestCorner st mx my = (-1)%Z
  \/ (App.image st <> None /\ (0 <= App.hitTestCorner st mx my <= 3)%Z).
Proof.
  unfold App.hitTestCorner.
  destruct (hit_from_spec (App.getCorners st) 0 mx my ltac:(lia))
    as [[H _] | (k & Hr & Hk & _)]; [now left|].
  right. rewrite Hr. unfold App.getCorners in Hk.
  destruct (App.image st); cbn in Hk; [split; [discriminate | lia] | lia].
Qed.

Lemma item_corner (st : App.State) (i : Z) :
  App.image st <> None -> (0 <= i <= 3)%Z ->
  exists c, App.item (App.getCorners st) i = Some c.
Proof.
  intros Hi Hr. unfold App.getCorners.
  destruct (App.image st) as [img|]; [|congruence].
  assert (C : i = 0%Z \/ i = 1%Z \/ i = 2%Z \/ i = 3%Z) by lia.
  destruct C as [-> | [-> | [-> | ->]]]; eexists; reflexivity.
Qed.

(** X14: the mousedown listener never throws: the two corners it copies are
    always in the array.  It leaves the image where it is, and either starts
    a pan or starts a resize of the corner under the pointer, an index from 0
    to 3, recording that corner and the diagonally opposite one as they are,
    not clamped. *)
Theorem mousedown_never_throws (st : App.State) (mx my clientX clientY : float) :
  exists st1,
    App.mousedown st mx my clientX clientY = Some st1
    /\ App.image st1 = App.image st
    /\ (App.panX st1, App.panY st1, App.zoom st1) = (App.panX st, App.panY st, App.zoom st)
    /\ ((App.mode st1 = App.pan /\ App.lastX st1 = clientX /\ App.lastY st1 = clientY)
        \/ (App.mode st1 = App.resize
            /\ App.resizeCorner st1 = App.hitTestCorner st mx my
            /\ (0 <= App.resizeCorner st1 <= 3)%Z
            /\ App.item (App.getCorners st) (App.resizeCorner st1)
               = Some (App.resizeActiveCorner st1)
            /\ App.item (App.getCorners st) (3 - App.resizeCorner st1)
               = Some (App.resizeFixedCorner st1))).
Proof.
  unfold App.mousedown.
  destruct (App.image st) as [img|] eqn:Ei.
  - destruct (hitTestCorner_range st mx my) as [H | [Hi Hr]].
    + rewrite H. cbn [Z.eqb Pos.eqb]. eexists. split; [reflexivity|].
      cbn. repeat split. left. repeat split.
    + destruct (Z.eqb_spec (App.hitTestCorner st mx my) (-1)) as [E|_]; [lia|].
      destruct (item_corner st (3 - App.hitTestCorner st mx my) Hi ltac:(lia)) as [f Hf].
      destruct (item_corner st (App.hitTestCorner st mx my) Hi Hr) as [a Ha].
      rewrite Hf, Ha. eexists. split; [reflexivity|].
      cbn. repeat split. right. repeat split; trivial; lia.
  - eexists. split; [reflexivity|]. cbn. repeat split. left. repeat split.
Qed.

Section DragFacts.

Context (Math_sqrt : float -> float) (pow : float -> float -> float).

(** X15: a drag that starts on the bottom-right handle never moves the
    top-left corner of the image: after the mousedown and any one move of the
    pointer, panX and panY are what they were before the drag. *)
Theorem drag_bottom_right_keeps_top_left
    (st : App.State) (mx my clientX clientY mx' my' : float) :
  App.hitTestCorner st mx my = 3%Z ->
  exists st1,
    App.mousedown st mx my clientX clientY = Some st1
    /\ App.mode st1 = App.resize
    /\ App.panX (App.applyResize Math_sqrt pow st1 mx' my') = App.panX st
    /\ App.panY (App.applyResize Math_sqrt pow st1 mx' my') = App.panY st.
Proof.
  intros H.
  assert (Hi : App.image st <> None).
  { destruct (hitTestCorner_range st mx my) as [E | [Hi _]]; [|exact Hi].
    rewrite E in H. discriminate H. }
  unfold App.mousedown. rewrite H.
  destruct (App.image st) as [img|] eqn:Ei; [|congruence].
  cbn [Z.eqb Pos.eqb Z.sub Z.add Z.opp Z.pos_sub Z.succ_double Z.pred_double Z.double
       Pos.pred_double].
  unfold App.getCorners. rewrite Ei. cbn [App.item Z.ltb Z.compare Z.to_nat Pos.to_nat
    Pos.iter_op Nat.add nth_error].
  eexists. split; [reflexivity|]. split; [reflexivity|].
  unfold App.applyResize. cbn [App.image App.resizeFixedCorner App.resizeActiveCorner
    App.resizeCorner App.resizeMouseStartX App.resizeMouseStartY App.resizeStartZoom
    App.panX App.panY].
  match goal with |- context [if ?b then _ else _] => destruct b end;
    split; reflexivity.
Qed.

End DragFacts.

Lemma drag_bottom_right_keeps_top_left_witness :
  let st := App.fitImage (App.mkState (Some sample_image) 0 0 1 0 "#c0922a" App.none (-1) 1
                                      (0, 0) (0, 0) 0 0 0 0 None) in
  exists st1,
    App.mousedown st 500 480 900 700 = Some st1
    /\ App.mode st1 = App.resize
    /\ App.panX (App.applyResize sqrt square st1 400 380) = App.panX st
    /\ App.panY (App.applyResize sqrt square st1 400 380) = App.panY st.
Proof.
  apply (drag_bottom_right_keeps_top_left sqrt square
           (App.fitImage (App.mkState (Some sample_image) 0 0 1 0 "#c0922a" App.none (-1) 1
                                      (0, 0) (0, 0) 0 0 0 0 None))
           500 480 900 700 400 380).
  vm_compute. reflexivity.
Defined.
